(** * ShadowMesh simple discovery server: the in-memory peer registry

    A shallow embedding of [scripts/simple-discovery.py]: the global
    [peers] dictionary, the registration branch of [do_POST] and the lookup,
    listing and statistics branches of [do_GET], together with the
    overridden [log_message], whose [format % args] can raise inside the
    handlers.

    Modelling conventions.
    - Timestamps ([time.time()]) are exact rationals; every handler reads the
      clock once and receives that reading as its argument [now].
    - A Python [str] is a [string], one [ascii] per code point (code points
      up to 255).
    - The request body and the query string arrive already decoded
      ([json.loads], [parse_qs]); their fields carry the types of the
      documented contract (strings, an integer port, a boolean flag), each
      of them optional.
    - Python exceptions keep the mutations made before they were raised, so
      a handler maps a world to a result together with the world reached.
    - The authentication endpoints and [/health] never write to [peers] and
      are left out, as is the path dispatch in front of the handlers. *)

From Stdlib Require Import List String Ascii ZArith QArith Qabs Bool Lia DecimalString.
From ExtLib Require Import Structures.Monad Structures.MonadState Structures.MonadExc.
Import ListNotations.
Import MonadNotation.

Local Open Scope string_scope.
Local Open Scope list_scope.
Local Open Scope monad_scope.

(** ** Python built-ins used by the handlers *)
Module Py.

(** [not s] for a [str]: the empty string is the only falsy one. *)
Definition falsy_str (s : string) : bool :=
  match s with
  | EmptyString => true
  | String _ _ => false
  end.

(** [not x] where [x] is [None] or a [str]. *)
Definition falsy (x : option string) : bool :=
  match x with
  | None => true
  | Some s => falsy_str s
  end.

(** [a or b]: [a] when it is truthy, otherwise [b]. *)
Definition or_else (a b : option string) : option string :=
  if falsy a then b else a.

(** [d.get(key, default)] on a key that may be absent. *)
Definition get_default {A : Type} (x : option A) (default : A) : A :=
  match x with
  | Some v => v
  | None => default
  end.

(** [s[:16]] *)
Definition slice16 (s : string) : string := substring 0 16 s.

(** [x < y] on timestamps. *)
Definition Qltb (x y : Q) : bool :=
  (Qnum x * QDen y <? Qnum y * QDen x)%Z.

(** [int(x)] on a float: truncation toward zero. *)
Definition int_of_float (x : Q) : Z := Z.quot (Qnum x) (QDen x).

(** [str(n)] on an [int], as an f-string interpolates it. *)
Definition str_of_int (n : Z) : string := NilZero.string_of_int (Z.to_int n).

(** [str(b)] on a [bool]. *)
Definition str_of_bool (b : bool) : string := if b then "True" else "False".

(** [format % ()]: with an empty argument tuple, [%%] yields [%] and every
    other [%] raises ([None]). *)
Fixpoint percent_format (format : string) : option string :=
  match format with
  | EmptyString => Some EmptyString
  | String c rest =>
      if Ascii.eqb c "%" then
        match rest with
        | EmptyString => None
        | String c' rest' =>
            if Ascii.eqb c' "%"
            then option_map (String "%") (percent_format rest')
            else None
        end
      else option_map (String c) (percent_format rest)
  end.

End Py.

(** ** A Python [dict] with [str] keys: entries in insertion order *)
Module Dict.

Definition t (V : Type) : Type := list (string * V).

Section Ops.
Context {V : Type}.

(** [d.get(k)] / [d[k]] *)
Fixpoint get (k : string) (d : t V) : option V :=
  match d with
  | [] => None
  | (k', v) :: d' => if String.eqb k k' then Some v else get k d'
  end.

(** [k in d] *)
Definition mem (k : string) (d : t V) : bool :=
  match get k d with
  | Some _ => true
  | None => false
  end.

(** [d[k] = v]: an existing key keeps its position, a new key goes last. *)
Fixpoint set (k : string) (v : V) (d : t V) : t V :=
  match d with
  | [] => [(k, v)]
  | (k', v') :: d' =>
      if String.eqb k k' then (k', v) :: d' else (k', v') :: set k v d'
  end.

(** [del d[k]]: [None] stands for [KeyError]. *)
Fixpoint del (k : string) (d : t V) : option (t V) :=
  match d with
  | [] => None
  | (k', v') :: d' =>
      if String.eqb k k' then Some d'
      else option_map (cons (k', v')) (del k d')
  end.

(** [list(d.items())], [d.values()], [len(d)] *)
Definition items (d : t V) : list (string * V) := d.
Definition values (d : t V) : list V := map snd d.
Definition len (d : t V) : Z := Z.of_nat (List.length d).

(** Keys are unique: the representation invariant of a dictionary. *)
Fixpoint wf (d : t V) : bool :=
  match d with
  | [] => true
  | (k, _) :: d' => negb (mem k d') && wf d'
  end.

End Ops.

End Dict.

Import Py.

(** ** Data model *)

(** The value stored under a peer id (lines 51-58). *)
Record peer_info := {
  peer_id : string;
  ip : string;
  port : Z;
  is_public : bool;
  last_seen : Q;
  registered_at : Q
}.

(** The entry a lookup returns (lines 153-158). *)
Record peer_view := {
  view_peer_id : string;
  view_ip_address : string;
  view_port : Z;
  view_is_public : bool
}.

(** The decoded registration body: [data.get(key)] per key. *)
Record register_body := {
  body_peer_id : option string;
  body_ip : option string;
  body_ip_address : option string;
  body_port : option Z;
  body_is_public : option bool
}.

(** The decoded lookup query: [params.get(key, ...)[0]] per key. *)
Record lookup_query := {
  query_peer_id : option string;
  query_count : option string
}.

(** What a handler writes to the client: the payload of a success
    response, or the status of [send_error]. In the statistics the
    [server_time] text is left out, and the description carried by a 500 is
    not modelled. *)
Inductive reply :=
| Registered201 (peer : string)
| Lookup200 (matching_peers : list peer_view) (count : Z)
| Listing200 (active_peers : Dict.t peer_info) (count : Z) (timestamp : Q)
| Stats200 (total_peers active_peers public_peers private_peers uptime_seconds : Z)
| Error400 (message : string)
| Error500.

(** The exceptions of the modelled code: what [format % args] raises (a
    [TypeError] or a [ValueError]), the [ValueError] of [int], and the
    [KeyError] of [del]. The handlers catch them all alike. *)
Inductive exn := FormatError | ValueError | KeyError.

(** The process state: the global [peers], [server_start_time], and the
    replies written so far. *)
Record world := {
  peers : Dict.t peer_info;
  server_start_time : Q;
  wfile : list reply
}.

Inductive result (A : Type) :=
| Ok (a : A)
| Raise (e : exn).
Arguments Ok {A} a.
Arguments Raise {A} e.

Definition handler (A : Type) : Type := world -> result A * world.

#[export] Instance Monad_handler : Monad handler := {
  ret := fun A (a : A) w => (Ok a, w);
  bind := fun A B (m : handler A) (k : A -> handler B) w =>
    match m w with
    | (Ok a, w') => k a w'
    | (Raise e, w') => (Raise e, w')
    end
}.

#[export] Instance MonadState_handler : MonadState world handler := {
  get := fun w => (Ok w, w);
  put := fun w' _ => (Ok tt, w')
}.

(** [try: body except Exception: recover] keeps the world the body reached. *)
#[export] Instance MonadExc_handler : MonadExc exn handler := {
  raise := fun A e w => (Raise e, w);
  catch := fun A (body : handler A) (recover : exn -> handler A) w =>
    match body w with
    | (Ok a, w') => (Ok a, w')
    | (Raise e, w') => recover e w'
    end
}.

Definition with_peers (w : world) (d : Dict.t peer_info) : world :=
  {| peers := d; server_start_time := server_start_time w; wfile := wfile w |}.

Definition with_reply (w : world) (r : reply) : world :=
  {| peers := peers w; server_start_time := server_start_time w;
     wfile := wfile w ++ [r] |}.

Definition set_peers (d : Dict.t peer_info) : handler unit :=
  w <- get ;;
  put (with_peers w d).

(** [self.send_response(...)] with its body, or [self.send_error(...)]. The
    log lines these two print go through [log_message] with a literal format
    and matching arguments, which always formats. *)
Definition send (r : reply) : handler unit :=
  w <- get ;;
  put (with_reply w r).

(** [log_message] (lines 22-25) called with a format and no arguments: the
    line is printed unless [format % args] raises. *)
Definition log_message (format : string) : handler unit :=
  match percent_format format with
  | Some _ => ret tt
  | None => raise FormatError
  end.

(** [del peers[peer_id]] *)
Definition del_peer (k : string) : handler unit :=
  w <- get ;;
  match Dict.del k (peers w) with
  | Some d => set_peers d
  | None => raise KeyError
  end.

Definition stale_timeout : Q := 300.

Section Handlers.

(** Python's [int] applied to a query-string value: the integer, or [None]
    where it raises [ValueError]. *)
Variable py_int : string -> option Z.

(** *** POST /register (lines 39-72) *)

Definition registered_log (is_new : bool) (peer ip_ : string) (port_ : Z)
    (is_public_ : bool) : string :=
  (if is_new then "Registered" else "Updated") ++ " peer " ++ slice16 peer
    ++ "... at " ++ ip_ ++ ":" ++ str_of_int port_
    ++ " (public=" ++ str_of_bool is_public_ ++ ")".

(** Lines 48-58: store the record; the value is [is_new]. *)
Definition register (peer ip_ : string) (port_ : Z) (is_public_ : bool)
    (now : Q) : handler bool :=
  w <- get ;;
  let is_new := negb (Dict.mem peer (peers w)) in
  set_peers (Dict.set peer
    {| peer_id := peer;
       ip := ip_;
       port := port_;
       is_public := is_public_;
       last_seen := now;
       registered_at :=
         match Dict.get peer (peers w) with
         | Some old => registered_at old
         | None => now
         end |} (peers w)) ;;
  ret is_new.

(** The guard of line 44, [if not peer_id or not ip], sends [None] and the
    empty string to the 400 reply. *)
Definition do_POST_register (data : register_body) (now : Q) : handler unit :=
  catch
    (let peer := body_peer_id data in
     let ip_ := or_else (body_ip data) (body_ip_address data) in
     let port_ := get_default (body_port data) 8443%Z in
     let is_public_ := get_default (body_is_public data) false in
     match peer, ip_ with
     | Some peer, Some ip_ =>
         if falsy_str peer || falsy_str ip_
         then send (Error400 "Missing peer_id or ip")
         else
           is_new <- register peer ip_ port_ is_public_ now ;;
           send (Registered201 peer) ;;
           log_message (registered_log is_new peer ip_ port_ is_public_)
     | _, _ => send (Error400 "Missing peer_id or ip")
     end)
    (fun _ => send Error500).

(** *** GET /api/peers/lookup (lines 140-169) *)

Definition view_of (info : peer_info) : peer_view :=
  {| view_peer_id := peer_id info;
     view_ip_address := ip info;
     view_port := port info;
     view_is_public := is_public info |}.

(** Lines 151-158: the matching peers. *)
Definition lookup (peer : string) (now : Q) (d : Dict.t peer_info)
    : list peer_view :=
  match Dict.get peer d with
  | Some info =>
      if Qltb (now - last_seen info) stale_timeout
      then [view_of info]
      else []
  | None => []
  end.

Definition lookup_log (peer : string) (n : Z) : string :=
  "Peer lookup for " ++ slice16 peer ++ "... returned " ++ str_of_int n
    ++ " peers".

Definition do_GET_lookup (q : lookup_query) (now : Q) : handler unit :=
  catch
    (count <- match query_count q with
              | None => ret 10%Z
              | Some s => match py_int s with
                          | Some n => ret n
                          | None => raise ValueError
                          end
              end ;;
     match query_peer_id q with
     | None => send (Error400 "Missing peer_id parameter")
     | Some peer =>
         if falsy_str peer
         then send (Error400 "Missing peer_id parameter")
         else
           w <- get ;;
           let matching_peers := lookup peer now (peers w) in
           send (Lookup200 matching_peers (Z.of_nat (List.length matching_peers))) ;;
           log_message (lookup_log peer (Z.of_nat (List.length matching_peers)))
     end)
    (fun _ => send Error500).

(** *** GET /peers (lines 193-219) *)

Definition stale_log (peer : string) (age : Q) : string :=
  "Removing stale peer " ++ slice16 peer ++ "... (last seen "
    ++ str_of_int (int_of_float age) ++ "s ago)".

(** Lines 199-204: the loop over [list(peers.items())]. *)
Fixpoint sweep (now : Q) (snapshot : list (string * peer_info))
    (active_peers : Dict.t peer_info) : handler (Dict.t peer_info) :=
  match snapshot with
  | [] => ret active_peers
  | (peer, info) :: rest =>
      if Qltb (now - last_seen info) stale_timeout
      then sweep now rest (Dict.set peer info active_peers)
      else
        log_message (stale_log peer (now - last_seen info)) ;;
        del_peer peer ;;
        sweep now rest active_peers
  end.

Definition returned_log (n : Z) : string :=
  "Returned " ++ str_of_int n ++ " active peers".

Definition do_GET_peers (now : Q) : handler unit :=
  catch
    (w <- get ;;
     active_peers <- sweep now (Dict.items (peers w)) [] ;;
     send (Listing200 active_peers (Dict.len active_peers) now) ;;
     log_message (returned_log (Dict.len active_peers)))
    (fun _ => send Error500).

(** *** GET /stats (lines 233-248) *)

Definition do_GET_stats (now : Q) : handler unit :=
  w <- get ;;
  let active_peers :=
    filter (fun info => Qltb (now - last_seen info) 300)
           (Dict.values (peers w)) in
  let public_peers := filter is_public active_peers in
  send (Stats200 (Dict.len (peers w))
                 (Z.of_nat (List.length active_peers))
                 (Z.of_nat (List.length public_peers))
                 (Z.of_nat (List.length active_peers) - Z.of_nat (List.length public_peers))
                 (int_of_float (now - server_start_time w))).

(** *** The server loop: one request at a time *)

Inductive request :=
| POST_register (data : register_body)
| GET_lookup (q : lookup_query)
| GET_peers
| GET_stats.

Definition handle (r : request) (now : Q) : handler unit :=
  match r with
  | POST_register data => do_POST_register data now
  | GET_lookup q => do_GET_lookup q now
  | GET_peers => do_GET_peers now
  | GET_stats => do_GET_stats now
  end.

(** [serve_forever]: the requests are handled in arrival order, each with
    its own clock reading. *)
Fixpoint serve (rs : list (request * Q)) (w : world) : world :=
  match rs with
  | [] => w
  | (r, now) :: rs' => serve rs' (snd (handle r now w))
  end.

End Handlers.

Arguments percent_format : simpl never.
Arguments registered_log : simpl never.
Arguments lookup_log : simpl never.
Arguments stale_log : simpl never.
Arguments returned_log : simpl never.
Arguments log_message : simpl never.
Arguments lookup : simpl never.

(** ** Vocabulary of the specification *)

(** A record is active at [now] when [now - last_seen < 300]. *)
Definition active_at (now : Q) (info : peer_info) : Prop :=
  (now - last_seen info < 300)%Q.

(** A record is an active public one. *)
Definition active_public_at (now : Q) (info : peer_info) : Prop :=
  active_at now info /\ is_public info = true.

(** [counts P l n]: exactly [n] elements of [l] satisfy [P]. *)
Inductive counts {A : Type} (P : A -> Prop) : list A -> nat -> Prop :=
| counts_nil : counts P [] 0
| counts_hit (a : A) (l : list A) (n : nat) :
    P a -> counts P l n -> counts P (a :: l) (S n)
| counts_miss (a : A) (l : list A) (n : nat) :
    ~ P a -> counts P l n -> counts P (a :: l) n.

(** The entries of a dictionary that are active at [now], in order. *)
Definition active_entries (now : Q) (d : Dict.t peer_info) : Dict.t peer_info :=
  filter (fun kv => Qltb (now - last_seen (snd kv)) stale_timeout) d.

Arguments active_entries : simpl never.

(** A string without any [%]. *)
Fixpoint percent_free (s : string) : bool :=
  match s with
  | EmptyString => true
  | String c rest => negb (Ascii.eqb c "%") && percent_free rest
  end.

(** Every stale entry of [d] has a log line that [log_message] can format. *)
Definition stale_logs_format (now : Q) (d : Dict.t peer_info) : Prop :=
  forall k info, In (k, info) d -> ~ active_at now info ->
    percent_format (stale_log k (now - last_seen info)) <> None.

(** The replies a handler run added to the wire. *)
Definition wrote (w w' : world) (rs : list reply) : Prop :=
  wfile w' = wfile w ++ rs.

(** The [count] parameter of a lookup query is absent or an integer
    literal. *)
Definition count_parses (py_int : string -> option Z) (q : lookup_query) : Prop :=
  match query_count q with
  | None => True
  | Some s => py_int s <> None
  end.

(** The record a registration stores. *)
Definition stored_record (data : register_body) (peer ip_ : string)
    (now first_seen : Q) : peer_info :=
  {| peer_id := peer;
     ip := ip_;
     port := get_default (body_port data) 8443%Z;
     is_public := get_default (body_is_public data) false;
     last_seen := now;
     registered_at := first_seen |}.

(** The count fields of a statistics reply, as the specification words
    them. *)
Definition stats_counts (now : Q) (w : world)
    (total active public private : Z) : Prop :=
  total = Z.of_nat (List.length (peers w)) /\
  (exists a p : nat,
      active = Z.of_nat a /\ counts (active_at now) (Dict.values (peers w)) a /\
      public = Z.of_nat p /\
      counts (active_public_at now) (Dict.values (peers w)) p) /\
  (private = active - public)%Z /\
  (public + private = active)%Z /\
  (0 <= public <= active)%Z /\ (active <= total)%Z.

(** The statistics reply with [uptime_seconds = now - server_start_time]. *)
Definition stats_as_stated (now : Q) (w : world) (r : reply) : Prop :=
  match r with
  | Stats200 total active public private uptime =>
      stats_counts now w total active public private /\
      (inject_Z uptime == now - server_start_time w)%Q
  | _ => False
  end.

(** The statistics reply with [uptime_seconds] the whole seconds of
    [now - server_start_time], rounded toward zero. *)
Definition stats_truncated (now : Q) (w : world) (r : reply) : Prop :=
  match r with
  | Stats200 total active public private uptime =>
      stats_counts now w total active public private /\
      uptime = int_of_float (now - server_start_time w) /\
      (Qabs (inject_Z uptime) <= Qabs (now - server_start_time w))%Q /\
      (Qabs (now - server_start_time w) < Qabs (inject_Z uptime) + 1)%Q /\
      (0 <= inject_Z uptime * (now - server_start_time w))%Q
  | _ => False
  end.

(** The full listing as the specification states it: the reply carries the
    active records, their count and [now]; afterwards the registry is the
    listed set; and a record is listed exactly when it was stored and
    active (so exactly the records with [now - last_seen >= 300] are
    gone). *)
Definition listing_as_stated (now : Q) (w : world) : Prop :=
  exists listed,
    wrote w (snd (do_GET_peers now w))
          [Listing200 listed (Dict.len listed) now] /\
    peers (snd (do_GET_peers now w)) = listed /\
    (forall k info,
        Dict.get k listed = Some info <->
        Dict.get k (peers w) = Some info /\ active_at now info).

(** The entry a registration adds for a peer that is not stored yet, when
    the body passes validation. *)
Definition entry_of (reg : register_body * Q) : option (string * peer_info) :=
  match body_peer_id (fst reg),
        or_else (body_ip (fst reg)) (body_ip_address (fst reg)) with
  | Some peer, Some addr =>
      if falsy_str peer || falsy_str addr then None
      else Some (peer, stored_record (fst reg) peer addr (snd reg) (snd reg))
  | _, _ => None
  end.

Definition register_requests (regs : list (register_body * Q))
    : list (request * Q) :=
  map (fun reg => (POST_register (fst reg), snd reg)) regs.

(** Requests that only read: lookups and statistics. *)
Definition reads_only (r : request) : bool :=
  match r with
  | GET_lookup _ | GET_stats => true
  | POST_register _ | GET_peers => false
  end.

(** The address a registration body supplies: [ip] when it is given and
    not empty, otherwise [ip_address]. *)
Definition supplies_address (data : register_body) (addr : string) : Prop :=
  body_ip data = Some addr \/
  (falsy (body_ip data) = true /\ body_ip_address data = Some addr).

(** ** The other endpoints and the dispatch on the path *)

(** What any handler writes: a reply of the registry endpoints, or the
    payload of the authentication, challenge and health endpoints, or the
    404 of an unknown path. The flag of [Auth200] is the [authenticated]
    key, which only [/api/auth/verify] sends. *)
Inductive response :=
| Registry (r : reply)
| Auth200 (session_token : string) (authenticated : option bool)
| Challenge200 (challenge : string) (timestamp : Z)
| Health200 (uptime peer_count : Z)
| Error404.

(** The body of a POST as lines 31-37 (and 82-84, 107-109) read it: the
    [Content-Length] header is not an integer, it is absent or zero, the
    bytes are not UTF-8, the text is not JSON, the JSON value is not an
    object, or it is an object with the fields the handlers ask for. *)
Inductive request_body :=
| BadContentLength
| NoContent
| NotUtf8
| NotJson
| NotAnObject
| Object (data : register_body).

(** The world a handler instance starts from: every request has its own
    [wfile]. *)
Definition connection (w : world) : world :=
  {| peers := peers w; server_start_time := server_start_time w; wfile := [] |}.

(** A registry handler run on a fresh connection: the registry it leaves
    and what it wrote. *)
Definition registry_answer (h : handler unit) (w : world)
    : Dict.t peer_info * list response :=
  (peers (snd (h (connection w))), map Registry (wfile (snd (h (connection w))))).

Definition authenticated_log (peer : string) : string :=
  "Authenticated peer " ++ slice16 peer ++ "...".

(** [f'session-{peer_id}-{int(time.time())}'] *)
Definition session_token (peer : string) (now : Q) : string :=
  "session-" ++ peer ++ "-" ++ str_of_int (int_of_float now).

(** The 200 of the authentication endpoints and the log call after it. *)
Definition auth_accept (authenticated : option bool) (peer : string) (now : Q)
    : list response :=
  Auth200 (session_token peer now) authenticated ::
  match percent_format (authenticated_log peer) with
  | Some _ => []
  | None => [Registry Error500]
  end.

(** [/api/auth/verify] (lines 81-102) and [/authenticate],
    [/api/auth/authenticate] (lines 106-126): an empty body is read as
    [{}], a missing [peer_id] as ['unknown'], and every exception is a
    500. *)
Definition do_POST_auth (authenticated : option bool) (body : request_body)
    (now : Q) : list response :=
  match body with
  | BadContentLength | NotUtf8 | NotJson | NotAnObject => [Registry Error500]
  | NoContent => auth_accept authenticated "unknown" now
  | Object data =>
      auth_accept authenticated (get_default (body_peer_id data) "unknown") now
  end.

(** [do_POST] (lines 27-129): the registry it leaves and what it wrote. *)
Definition do_POST (path : string) (body : request_body) (now : Q) (w : world)
    : Dict.t peer_info * list response :=
  if String.eqb path "/register" || String.eqb path "/api/peers/register" then
    match body with
    | BadContentLength | NotUtf8 | NotAnObject => (peers w, [Registry Error500])
    | NoContent => (peers w, [Registry (Error400 "Empty request body")])
    | NotJson => (peers w, [Registry (Error400 "Invalid JSON")])
    | Object data => registry_answer (do_POST_register data now) w
    end
  else if String.eqb path "/api/auth/verify" then
    (peers w, do_POST_auth (Some true) body now)
  else if String.eqb path "/authenticate"
          || String.eqb path "/api/auth/authenticate" then
    (peers w, do_POST_auth None body now)
  else (peers w, [Error404]).

Section Dispatch.

Variable py_int : string -> option Z.

(** [do_GET] (lines 131-251). [params] is what [parse_qs] finds in the
    query part of [path], and [challenge] is the value of
    [secrets.token_hex(32)]. *)
Definition do_GET (path : string) (params : lookup_query) (challenge : string)
    (now : Q) (w : world) : Dict.t peer_info * list response :=
  if String.prefix "/api/peers/lookup" path then
    registry_answer (do_GET_lookup py_int params now) w
  else if String.eqb path "/api/auth/challenge" then
    (peers w, [Challenge200 challenge (int_of_float now)])
  else if String.eqb path "/peers" || String.eqb path "/api/peers" then
    registry_answer (do_GET_peers now) w
  else if String.eqb path "/health" then
    (peers w,
     [Health200 (int_of_float (now - server_start_time w)) (Dict.len (peers w))])
  else if String.eqb path "/stats" then
    registry_answer (do_GET_stats now) w
  else (peers w, [Error404]).

Inductive http_request :=
| POST (path : string) (body : request_body)
| GET (path : string) (params : lookup_query) (challenge : string).

Definition answer (r : http_request) (now : Q) (w : world)
    : Dict.t peer_info * list response :=
  match r with
  | POST path body => do_POST path body now w
  | GET path params challenge => do_GET path params challenge now w
  end.

(** The requests of a run, one after the other: the final state and what
    each request was answered. *)
Fixpoint run (rs : list (http_request * Q)) (w : world)
    : world * list (list response) :=
  match rs with
  | [] => (w, [])
  | (r, now) :: rs' =>
      let w' := with_peers w (fst (answer r now w)) in
      (fst (run rs' w'), snd (answer r now w) :: snd (run rs' w'))
  end.

(** [run_server] (lines 254-273): the clock is read once, the registry is
    the empty module-level [peers], then the requests are served. *)
Definition run_server (start : Q) (rs : list (http_request * Q))
    : world * list (list response) :=
  run rs {| peers := []; server_start_time := start; wfile := [] |}.

End Dispatch.

Arguments authenticated_log : simpl never.
Arguments session_token : simpl never.

(** ** Vocabulary for the other endpoints *)

(** Reading left to right and taking [%%] as one unit, some [%] stands
    alone. *)
Fixpoint lone_percent (s : string) : bool :=
  match s with
  | EmptyString => false
  | String c rest =>
      if Ascii.eqb c "%" then
        match rest with
        | EmptyString => true
        | String c' rest' => if Ascii.eqb c' "%" then lone_percent rest' else true
        end
      else lone_percent rest
  end.

(** No stale entry of [d] has a lone [%] in the first 16 characters of its
    key. *)
Definition stale_ids_loggable (now : Q) (d : Dict.t peer_info) : Prop :=
  forall k info, In (k, info) d -> ~ active_at now info ->
    lone_percent (slice16 k) = false.

(** The registry a listing at [now] leaves: the active entries stay, the
    stale ones go, up to the first stale entry with a lone [%] in the first
    16 characters of its key; from there on nothing is touched. *)
Fixpoint after_listing (now : Q) (d : Dict.t peer_info) : Dict.t peer_info :=
  match d with
  | [] => []
  | (k, info) :: rest =>
      if Qltb (now - last_seen info) stale_timeout
      then (k, info) :: after_listing now rest
      else if lone_percent (slice16 k) then (k, info) :: rest
      else after_listing now rest
  end.

(** [stale_ids_loggable], as a test. *)
Definition all_stale_loggable (now : Q) (d : Dict.t peer_info) : bool :=
  forallb (fun kv => Qltb (now - last_seen (snd kv)) stale_timeout
                     || negb (lone_percent (slice16 (fst kv)))) d.

(** What holds of every stored entry: the record carries its own key, the
    key and the address are not empty, and [registered_at <= last_seen <=
    latest]. *)
Definition record_ok (latest : Q) (entry : string * peer_info) : Prop :=
  peer_id (snd entry) = fst entry /\
  fst entry <> "" /\
  ip (snd entry) <> "" /\
  (registered_at (snd entry) <= last_seen (snd entry))%Q /\
  (last_seen (snd entry) <= latest)%Q.

(** The clock readings of a run never go back. *)
Fixpoint clock_ok {R : Type} (latest : Q) (rs : list (R * Q)) : Prop :=
  match rs with
  | [] => True
  | (_, now) :: rs' => (latest <= now)%Q /\ clock_ok now rs'
  end.

(** The last clock reading of a run. *)
Fixpoint last_clock {R : Type} (latest : Q) (rs : list (R * Q)) : Q :=
  match rs with
  | [] => latest
  | (_, now) :: rs' => last_clock now rs'
  end.

(** A body that passes the guard of line 44 with this id and address. *)
Definition accepted (data : register_body) (peer addr : string) : Prop :=
  body_peer_id data = Some peer /\ peer <> "" /\
  or_else (body_ip data) (body_ip_address data) = Some addr /\ addr <> "".

(** The registrations of a list of bodies, as requests. *)
Definition register_posts (regs : list (register_body * Q))
    : list (http_request * Q) :=
  map (fun reg => (POST "/register" (Object (fst reg)), snd reg)) regs.

(** What holds of a registry: unique keys and [record_ok] entries. *)
Definition registry_ok (latest : Q) (d : Dict.t peer_info) : Prop :=
  Dict.wf d = true /\ forall e, In e d -> record_ok latest e.

(** ** Concrete inputs *)

Definition empty_world : world :=
  {| peers := []; server_start_time := 0; wfile := [] |}.

Definition body_without_peer : register_body :=
  {| body_peer_id := Some ""; body_ip := Some "10.0.0.1";
     body_ip_address := None; body_port := Some 9000%Z;
     body_is_public := Some true |}.

Definition body_abc : register_body :=
  {| body_peer_id := Some "abc"; body_ip := Some "10.0.0.1";
     body_ip_address := None; body_port := Some 9000%Z;
     body_is_public := Some true |}.

(** The same peer again, under the other address key and without the
    optional fields. *)
Definition body_abc_moved : register_body :=
  {| body_peer_id := Some "abc"; body_ip := None;
     body_ip_address := Some "10.0.0.2"; body_port := None;
     body_is_public := None |}.

Definition body_percent : register_body :=
  {| body_peer_id := Some "50%off"; body_ip := Some "10.0.0.9";
     body_ip_address := None; body_port := None; body_is_public := None |}.

Definition info_abc : peer_info :=
  {| peer_id := "abc"; ip := "10.0.0.1"; port := 9000; is_public := true;
     last_seen := 100; registered_at := 100 |}.

Definition info_percent : peer_info :=
  {| peer_id := "50%off"; ip := "10.0.0.9"; port := 8443; is_public := false;
     last_seen := 0; registered_at := 0 |}.

(** The registry after [body_abc] was registered at time 100. *)
Definition world_abc : world :=
  {| peers := [("abc", info_abc)]; server_start_time := 0;
     wfile := [Registered201 "abc"] |}.

(** The registry after [body_percent] was registered at time 0: the record
    is stored, and the 201 is followed by a 500 from the log call. *)
Definition world_percent : world :=
  {| peers := [("50%off", info_percent)]; server_start_time := 0;
     wfile := [Registered201 "50%off"; Error500] |}.

(** Two registrations, at times 0 and 1. *)
Definition two_registrations : list (request * Q) :=
  [(POST_register body_percent, 0); (POST_register body_abc, 1)].

Definition query_abc : lookup_query :=
  {| query_peer_id := Some "abc"; query_count := None |}.

Definition query_abc_bad_count : lookup_query :=
  {| query_peer_id := Some "abc"; query_count := Some "ten" |}.

(** A reading of [int] on decimal digits, for the examples. *)
Definition decimal_int (s : string) : option Z :=
  match NilEmpty.uint_of_string s with
  | Some (Decimal.Nil) => None
  | Some d => Some (Z.of_uint d)
  | None => None
  end.

Definition body_b : register_body :=
  {| body_peer_id := Some "b"; body_ip := Some "10.0.0.3";
     body_ip_address := None; body_port := None; body_is_public := None |}.

Definition regs_abc_b : list (register_body * Q) :=
  [(body_abc, 100); (body_b, 150)].

(** The entries [regs_abc_b] add to an empty registry. *)
Definition entries_abc_b : Dict.t peer_info :=
  [("abc", stored_record body_abc "abc" "10.0.0.1" 100 100);
   ("b", stored_record body_b "b" "10.0.0.3" 150 150)].


Definition query_no_peer : lookup_query :=
  {| query_peer_id := None; query_count := Some "10" |}.

Definition query_none : lookup_query :=
  {| query_peer_id := None; query_count := None |}.

(** ** Facts about the built-ins *)

Lemma Qltb_lt (x y : Q) : Qltb x y = true <-> (x < y)%Q.
Proof. unfold Qltb, Qlt. apply Z.ltb_lt. Qed.

Lemma Qltb_ge (x y : Q) : Qltb x y = false <-> (y <= x)%Q.
Proof. unfold Qltb, Qle. apply Z.ltb_ge. Qed.

Lemma active_test (now : Q) (info : peer_info) :
  Qltb (now - last_seen info) stale_timeout = true <-> active_at now info.
Proof. unfold active_at, stale_timeout. apply Qltb_lt. Qed.

Lemma stale_test (now : Q) (info : peer_info) :
  Qltb (now - last_seen info) stale_timeout = false <-> ~ active_at now info.
Proof.
  unfold active_at, stale_timeout. rewrite Qltb_ge. split.
  - apply Qle_not_lt.
  - apply Qnot_lt_le.
Qed.

Lemma falsy_str_false (s : string) : falsy_str s = false <-> s <> "".
Proof. destruct s; simpl; split; intros H; congruence. Qed.

Example percent_format_doubled :
  percent_format "100%% sure" = Some "100% sure".
Proof. reflexivity. Qed.

Example percent_format_conversion : percent_format "50%off" = None.
Proof. reflexivity. Qed.

Example percent_format_incomplete : percent_format "100%" = None.
Proof. reflexivity. Qed.

Example str_of_int_negative : str_of_int (-5) = "-5".
Proof. reflexivity. Qed.

Example int_of_float_rounds_toward_zero :
  int_of_float (7 # 2) = 3%Z /\ int_of_float (- (7 # 2)) = (-3)%Z.
Proof. split; reflexivity. Qed.

Example registered_log_abc :
  registered_log true "abc" "10.0.0.1" 9000 true =
    "Registered peer abc... at 10.0.0.1:9000 (public=True)".
Proof. reflexivity. Qed.

Example stale_log_long_id :
  stale_log "0123456789abcdefXYZ" (601 # 2) =
    "Removing stale peer 0123456789abcdef... (last seen 300s ago)".
Proof. reflexivity. Qed.

(** ** Facts about dictionaries *)

Section DictFacts.
Context {V : Type}.
Implicit Types (d : Dict.t V) (k : string) (v : V).

Lemma mem_get k d : Dict.mem k d = true <-> exists v, Dict.get k d = Some v.
Proof.
  unfold Dict.mem. destruct (Dict.get k d) as [v|].
  - split; [exists v; reflexivity | reflexivity].
  - split; [discriminate | intros [v Hv]; discriminate].
Qed.

Lemma not_mem_get k d : Dict.mem k d = false <-> Dict.get k d = None.
Proof.
  unfold Dict.mem. destruct (Dict.get k d); split; congruence.
Qed.

Lemma get_set_same k v d : Dict.get k (Dict.set k v d) = Some v.
Proof.
  induction d as [|[k' v'] d IH]; simpl.
  - now rewrite String.eqb_refl.
  - destruct (String.eqb k k') eqn:E; simpl; rewrite E; auto.
Qed.

Lemma get_set_other k k' v d :
  k' <> k -> Dict.get k' (Dict.set k v d) = Dict.get k' d.
Proof.
  intros Hne. induction d as [|[k0 v0] d IH]; simpl.
  - apply String.eqb_neq in Hne. now rewrite Hne.
  - destruct (String.eqb k k0) eqn:E; simpl.
    + apply String.eqb_eq in E. subst k0.
      apply String.eqb_neq in Hne. now rewrite Hne.
    + now rewrite IH.
Qed.

Lemma set_present k v old d :
  Dict.get k d = Some old ->
  List.length (Dict.set k v d) = List.length d.
Proof.
  induction d as [|[k0 v0] d IH]; simpl; [discriminate|].
  destruct (String.eqb k k0); simpl; intros H; auto.
Qed.

Lemma set_absent k v d :
  Dict.get k d = None -> Dict.set k v d = d ++ [(k, v)].
Proof.
  induction d as [|[k0 v0] d IH]; simpl; [reflexivity|].
  destruct (String.eqb k k0); [discriminate|].
  intros H. now rewrite IH.
Qed.

Lemma get_app_none k d d' :
  Dict.get k (d ++ d') = None <-> Dict.get k d = None /\ Dict.get k d' = None.
Proof.
  induction d as [|[k0 v0] d IH]; simpl.
  - tauto.
  - destruct (String.eqb k k0); [|exact IH].
    split; [discriminate | intros [H _]; discriminate].
Qed.

Lemma wf_cons k v d :
  Dict.wf ((k, v) :: d) = true <-> Dict.get k d = None /\ Dict.wf d = true.
Proof.
  simpl. rewrite andb_true_iff, negb_true_iff, not_mem_get. tauto.
Qed.

Lemma wf_app d d' :
  Dict.wf (d ++ d') = true ->
  Dict.wf d = true /\ Dict.wf d' = true /\
  (forall k v, Dict.get k d' = Some v -> Dict.get k d = None).
Proof.
  induction d as [|[k0 v0] d IH].
  - simpl. intros H. repeat split; auto.
  - rewrite <- app_comm_cons, !wf_cons, get_app_none.
    intros [[Hd Hd'] Hwf]. destruct (IH Hwf) as (W1 & W2 & W3).
    repeat split; auto.
    intros k v Hk. simpl. destruct (String.eqb k k0) eqn:E; eauto.
    apply String.eqb_eq in E. subst. congruence.
Qed.

Lemma wf_snoc k v d :
  Dict.wf d = true -> Dict.get k d = None -> Dict.wf (d ++ [(k, v)]) = true.
Proof.
  induction d as [|[k0 v0] d IH]; [reflexivity|].
  rewrite <- app_comm_cons, !wf_cons, get_app_none. simpl.
  intros [H0 Hwf]. destruct (String.eqb k k0) eqn:E; [discriminate|].
  intros Hk. rewrite String.eqb_sym, E. auto.
Qed.

Lemma wf_set k v d : Dict.wf d = true -> Dict.wf (Dict.set k v d) = true.
Proof.
  induction d as [|[k0 v0] d IH]; [reflexivity|].
  intros H. apply wf_cons in H as [H0 Hwf]. simpl.
  destruct (String.eqb k k0) eqn:E; apply wf_cons; split; auto.
  rewrite get_set_other; auto.
  intros ->. rewrite String.eqb_refl in E. discriminate.
Qed.

Lemma del_middle k v d d' :
  Dict.get k d = None ->
  Dict.del k (d ++ (k, v) :: d') = Some (d ++ d').
Proof.
  induction d as [|[k0 v0] d IH]; simpl.
  - now rewrite String.eqb_refl.
  - destruct (String.eqb k k0); [discriminate|].
    intros H. now rewrite IH.
Qed.

Lemma get_filter_none (f : string * V -> bool) k d :
  Dict.get k d = None -> Dict.get k (filter f d) = None.
Proof.
  induction d as [|[k0 v0] d IH]; simpl; [reflexivity|].
  destruct (String.eqb k k0) eqn:E; [discriminate|].
  intros H. destruct (f (k0, v0)); simpl; [rewrite E|]; auto.
Qed.

Lemma get_filter (f : string * V -> bool) k d :
  Dict.wf d = true ->
  Dict.get k (filter f d) =
    match Dict.get k d with
    | Some v => if f (k, v) then Some v else None
    | None => None
    end.
Proof.
  induction d as [|[k0 v0] d IH]; [reflexivity|].
  intros H. apply wf_cons in H as [H0 Hwf]. simpl.
  destruct (String.eqb k k0) eqn:E.
  - apply String.eqb_eq in E. subst k0.
    destruct (f (k, v0)); simpl.
    + now rewrite String.eqb_refl.
    + now apply get_filter_none.
  - destruct (f (k0, v0)); simpl; [rewrite E|]; auto.
Qed.

Lemma wf_filter (f : string * V -> bool) d :
  Dict.wf d = true -> Dict.wf (filter f d) = true.
Proof.
  induction d as [|[k0 v0] d IH]; [reflexivity|].
  intros H. apply wf_cons in H as [H0 Hwf]. simpl.
  destruct (f (k0, v0)); auto.
  apply wf_cons. split; auto. now apply get_filter_none.
Qed.

Lemma get_In k v d : Dict.get k d = Some v -> In (k, v) d.
Proof.
  induction d as [|[k0 v0] d IH]; simpl; [discriminate|].
  destruct (String.eqb k k0) eqn:E; auto.
  apply String.eqb_eq in E. intros [= ->]. subst. auto.
Qed.

Lemma In_get k v d : Dict.wf d = true -> In (k, v) d -> Dict.get k d = Some v.
Proof.
  induction d as [|[k0 v0] d IH]; simpl; [tauto|].
  intros H. apply andb_true_iff in H as [H0 Hwf].
  apply negb_true_iff, not_mem_get in H0.
  intros [[= -> ->]|Hin].
  - now rewrite String.eqb_refl.
  - destruct (String.eqb k k0) eqn:E; auto.
    apply String.eqb_eq in E. subst k0.
    rewrite (IH Hwf Hin) in H0. discriminate.
Qed.

End DictFacts.

(** ** Registration *)

Lemma register_run (peer ip_ : string) (port_ : Z) (public_ : bool) (now : Q)
    (w : world) :
  register peer ip_ port_ public_ now w =
    (Ok (negb (Dict.mem peer (peers w))),
     with_peers w (Dict.set peer
       {| peer_id := peer; ip := ip_; port := port_; is_public := public_;
          last_seen := now;
          registered_at := match Dict.get peer (peers w) with
                           | Some old => registered_at old
                           | None => now
                           end |} (peers w))).
Proof. reflexivity. Qed.

(** A body that passes validation is stored and acknowledged with 201; a
    500 follows when the log line cannot be formatted. *)
Lemma do_POST_register_accepts (data : register_body) (now : Q) (w : world)
    (peer ip_ : string) :
  body_peer_id data = Some peer -> peer <> "" ->
  or_else (body_ip data) (body_ip_address data) = Some ip_ -> ip_ <> "" ->
  let port_ := get_default (body_port data) 8443%Z in
  let public_ := get_default (body_is_public data) false in
  let acked :=
    with_reply (snd (register peer ip_ port_ public_ now w)) (Registered201 peer) in
  do_POST_register data now w =
    (Ok tt,
     match percent_format
             (registered_log (negb (Dict.mem peer (peers w))) peer ip_ port_ public_) with
     | Some _ => acked
     | None => with_reply acked Error500
     end).
Proof.
  intros Hp Hpne Hi Hine. cbv zeta.
  apply falsy_str_false in Hpne, Hine.
  unfold do_POST_register. cbn. rewrite Hp, Hi, Hpne, Hine. cbn.
  unfold log_message.
  destruct (percent_format _); reflexivity.
Qed.

(** A body that fails [if not peer_id or not ip] is answered with 400 and
    nothing else happens. *)
Lemma do_POST_register_rejects (data : register_body) (now : Q) (w : world) :
  falsy (body_peer_id data)
    || falsy (or_else (body_ip data) (body_ip_address data)) = true ->
  do_POST_register data now w =
    (Ok tt, with_reply w (Error400 "Missing peer_id or ip")).
Proof.
  intros H. unfold do_POST_register. cbn.
  destruct (body_peer_id data) as [peer|]; [|reflexivity].
  destruct (or_else (body_ip data) (body_ip_address data)) as [ip_|];
    [|reflexivity].
  simpl in H. now rewrite H.
Qed.

(** C6. A registration whose [peer_id] is missing or empty, or whose [ip]
    and [ip_address] are both missing or empty, is answered with the 400
    validation error and leaves the registry exactly as it was. *)
Theorem register_validation_failure :
  forall (data : register_body) (now : Q) (w : world),
    falsy (body_peer_id data) = true \/
    (falsy (body_ip data) = true /\ falsy (body_ip_address data) = true) ->
    do_POST_register data now w =
      (Ok tt, with_reply w (Error400 "Missing peer_id or ip")) /\
    peers (snd (do_POST_register data now w)) = peers w.
Proof.
  intros data now w H.
  assert (F : falsy (body_peer_id data)
                || falsy (or_else (body_ip data) (body_ip_address data)) = true).
  { destruct H as [H|[H1 H2]].
    - now rewrite H.
    - unfold or_else. rewrite H1, H2. apply orb_true_r. }
  rewrite (do_POST_register_rejects data now w F). split; reflexivity.
Qed.

Lemma register_validation_failure_witness :
  do_POST_register body_without_peer 5 empty_world =
    (Ok tt, with_reply empty_world (Error400 "Missing peer_id or ip")) /\
  peers (snd (do_POST_register body_without_peer 5 empty_world)) = peers empty_world.
Proof.
  apply (register_validation_failure body_without_peer 5 empty_world).
  left. reflexivity.
Defined.

(** The registry after an accepted registration is the one [register]
    leaves. *)
Lemma accepted_peers (data : register_body) (now : Q) (w : world)
    (peer ip_ : string) :
  body_peer_id data = Some peer -> peer <> "" ->
  or_else (body_ip data) (body_ip_address data) = Some ip_ -> ip_ <> "" ->
  peers (snd (do_POST_register data now w)) =
    peers (snd (register peer ip_ (get_default (body_port data) 8443%Z)
                  (get_default (body_is_public data) false) now w)).
Proof.
  intros Hp Hpne Hi Hine.
  rewrite (do_POST_register_accepts data now w peer ip_ Hp Hpne Hi Hine).
  cbn [snd]. now destruct (percent_format _).
Qed.

(** The first reply to an accepted registration is the 201. *)
Lemma accepted_reply (data : register_body) (now : Q) (w : world)
    (peer ip_ : string) :
  body_peer_id data = Some peer -> peer <> "" ->
  or_else (body_ip data) (body_ip_address data) = Some ip_ -> ip_ <> "" ->
  exists rest,
    wrote w (snd (do_POST_register data now w)) (Registered201 peer :: rest).
Proof.
  intros Hp Hpne Hi Hine.
  rewrite (do_POST_register_accepts data now w peer ip_ Hp Hpne Hi Hine).
  cbn [snd]. destruct (percent_format _).
  - exists []. reflexivity.
  - exists [Error500]. unfold wrote. simpl. now rewrite <- app_assoc.
Qed.

(** C1. A registration that passes validation is acknowledged with 201. When
    the peer id is already present, its [ip], [port] and [is_public] are
    overwritten, [last_seen] becomes [now], [registered_at] keeps its stored
    value, [is_new] is false and the number of records does not change; when
    it is absent, a record with [registered_at = last_seen = now] is added
    and [is_new] is true. Other records are untouched. *)
Theorem register_upsert :
  forall (data : register_body) (now : Q) (w : world) (peer ip_ : string),
    body_peer_id data = Some peer -> peer <> "" ->
    or_else (body_ip data) (body_ip_address data) = Some ip_ -> ip_ <> "" ->
    let port_ := get_default (body_port data) 8443%Z in
    let public_ := get_default (body_is_public data) false in
    let created := fst (register peer ip_ port_ public_ now w) in
    let w' := snd (do_POST_register data now w) in
    (exists rest, wrote w w' (Registered201 peer :: rest)) /\
    peers w' = peers (snd (register peer ip_ port_ public_ now w)) /\
    (forall k, k <> peer -> Dict.get k (peers w') = Dict.get k (peers w)) /\
    (forall old, Dict.get peer (peers w) = Some old ->
       created = Ok false /\
       Dict.get peer (peers w') =
         Some (stored_record data peer ip_ now (registered_at old)) /\
       List.length (peers w') = List.length (peers w)) /\
    (Dict.get peer (peers w) = None ->
       created = Ok true /\
       Dict.get peer (peers w') = Some (stored_record data peer ip_ now now) /\
       List.length (peers w') = S (List.length (peers w))).
Proof.
  intros data now w peer ip_ Hp Hpne Hi Hine. cbv zeta.
  rewrite (accepted_peers data now w peer ip_ Hp Hpne Hi Hine).
  split; [apply (accepted_reply data now w peer ip_); assumption|].
  split; [reflexivity|].
  rewrite register_run. cbn [fst snd peers with_peers].
  split; [intros k Hk; now apply get_set_other|].
  split.
  - intros old Hold. unfold Dict.mem. rewrite Hold, get_set_same.
    split; [reflexivity|]. split; [reflexivity|].
    now apply set_present with (old := old).
  - intros Hnew. unfold Dict.mem. rewrite Hnew, get_set_same.
    split; [reflexivity|]. split; [reflexivity|].
    rewrite (set_absent _ _ _ Hnew), length_app. simpl. lia.
Qed.

(** ** Lookup *)

Section LookupFacts.
Variable py_int : string -> option Z.


Lemma lookup_active (peer : string) (now : Q) (d : Dict.t peer_info)
    (info : peer_info) :
  Dict.get peer d = Some info -> active_at now info ->
  lookup peer now d = [view_of info].
Proof.
  intros Hget Hact. unfold lookup. rewrite Hget.
  apply active_test in Hact. now rewrite Hact.
Qed.

Lemma lookup_stale (peer : string) (now : Q) (d : Dict.t peer_info)
    (info : peer_info) :
  Dict.get peer d = Some info -> ~ active_at now info ->
  lookup peer now d = [].
Proof.
  intros Hget Hact. unfold lookup. rewrite Hget.
  apply stale_test in Hact. now rewrite Hact.
Qed.

Lemma lookup_absent (peer : string) (now : Q) (d : Dict.t peer_info) :
  Dict.get peer d = None -> lookup peer now d = [].
Proof. intros Hget. unfold lookup. now rewrite Hget. Qed.

(** A query with a usable [peer_id] and [count] is answered with 200 and
    the matching peers; a 500 follows when the log line cannot be
    formatted. *)
Lemma do_GET_lookup_answers (q : lookup_query) (now : Q) (w : world)
    (peer : string) :
  query_peer_id q = Some peer -> peer <> "" -> count_parses py_int q ->
  let found := lookup peer now (peers w) in
  let answered :=
    with_reply w (Lookup200 found (Z.of_nat (List.length found))) in
  do_GET_lookup py_int q now w =
    (Ok tt,
     match percent_format (lookup_log peer (Z.of_nat (List.length found))) with
     | Some _ => answered
     | None => with_reply answered Error500
     end).
Proof.
  intros Hp Hpne Hc. cbv zeta. apply falsy_str_false in Hpne.
  unfold count_parses in Hc. unfold do_GET_lookup. cbn.
  destruct (query_count q) as [s|]; [destruct (py_int s); [|congruence]|];
    cbn; rewrite Hp, Hpne; cbn; unfold log_message;
    destruct (percent_format _); reflexivity.
Qed.

(** A [count] that is not an integer literal raises before anything else
    is looked at. *)
Lemma do_GET_lookup_bad_count (q : lookup_query) (now : Q) (w : world)
    (s : string) :
  query_count q = Some s -> py_int s = None ->
  do_GET_lookup py_int q now w = (Ok tt, with_reply w Error500).
Proof.
  intros Hq Hs. unfold do_GET_lookup. cbn. rewrite Hq, Hs. reflexivity.
Qed.

(** Two queries for the same peer whose [count] parameters are usable
    are answered alike. *)
Lemma lookup_count_irrelevant (q q' : lookup_query) (now : Q) (w : world) :
  query_peer_id q = query_peer_id q' ->
  count_parses py_int q -> count_parses py_int q' ->
  do_GET_lookup py_int q now w = do_GET_lookup py_int q' now w.
Proof.
  intros Hp Hc Hc'. unfold count_parses in *. unfold do_GET_lookup. cbn.
  rewrite <- Hp.
  destruct (query_count q) as [s|]; [destruct (py_int s); [|congruence]|];
    (destruct (query_count q') as [s'|];
      [destruct (py_int s'); [|congruence]|]); reflexivity.
Qed.

(** The registry is the same after any lookup. *)
Lemma do_GET_lookup_frame (q : lookup_query) (now : Q) (w : world) :
  peers (snd (do_GET_lookup py_int q now w)) = peers w /\
  server_start_time (snd (do_GET_lookup py_int q now w)) = server_start_time w.
Proof.
  unfold do_GET_lookup. cbn.
  destruct (query_count q) as [s|]; [destruct (py_int s)|]; cbn;
    try (split; reflexivity);
    (destruct (query_peer_id q) as [peer|]; [destruct (falsy_str peer)|]; cbn;
     try (split; reflexivity);
     unfold log_message; destruct (percent_format _); cbn; split; reflexivity).
Qed.


(** C10. A lookup whose [count] is present and is not an integer literal
    is answered with the 500 error alone: no peer sequence is written and
    the registry is what it was. Between usable values of [count] the
    answer does not differ. *)
Theorem lookup_unparseable_count :
  forall (q : lookup_query) (now : Q) (w : world) (s : string),
    query_count q = Some s -> py_int s = None ->
    do_GET_lookup py_int q now w = (Ok tt, with_reply w Error500) /\
    wrote w (snd (do_GET_lookup py_int q now w)) [Error500] /\
    peers (snd (do_GET_lookup py_int q now w)) = peers w /\
    (forall q1 q2, query_peer_id q1 = query_peer_id q2 ->
                   count_parses py_int q1 -> count_parses py_int q2 ->
                   do_GET_lookup py_int q1 now w = do_GET_lookup py_int q2 now w).
Proof.
  intros q now w s Hq Hs.
  rewrite (do_GET_lookup_bad_count q now w s Hq Hs).
  repeat split. intros q1 q2. apply lookup_count_irrelevant.
Qed.

End LookupFacts.

(** ** Full listing *)

Lemma wf_drop_middle {V : Type} (d d' : Dict.t V) (k : string) (v : V) :
  Dict.wf (d ++ (k, v) :: d') = true ->
  Dict.wf (d ++ d') = true /\ Dict.get k d = None /\ Dict.get k d' = None.
Proof.
  induction d as [|[k0 v0] d IH].
  - simpl app. rewrite wf_cons. tauto.
  - rewrite <- !app_comm_cons, !wf_cons, !get_app_none. simpl.
    intros [[H0 H1] Hwf]. destruct (IH Hwf) as (W & G1 & G2).
    destruct (String.eqb k0 k) eqn:E; [discriminate|].
    rewrite String.eqb_sym, E. tauto.
Qed.

Lemma active_entries_app (now : Q) (d d' : Dict.t peer_info) :
  active_entries now (d ++ d') = active_entries now d ++ active_entries now d'.
Proof. apply filter_app. Qed.

Lemma active_entries_cons (now : Q) (kv : string * peer_info)
    (d : Dict.t peer_info) :
  active_entries now (kv :: d) =
    if Qltb (now - last_seen (snd kv)) stale_timeout
    then kv :: active_entries now d
    else active_entries now d.
Proof. reflexivity. Qed.

(** What one run of the loop does. Started on the not yet visited entries
    [rest] of a registry [kept ++ rest], it visits a prefix [visited] of them
    and leaves the registry at [kept], the active part of [visited] and the
    entries it did not reach. Either it reached the end and returns the
    active entries, or it stopped at a stale entry whose log line cannot be
    formatted. *)
Lemma sweep_run (now : Q) (rest : list (string * peer_info)) :
  forall (kept acc : Dict.t peer_info) (w : world),
    peers w = kept ++ rest ->
    Dict.wf (kept ++ rest) = true ->
    (forall k v, Dict.get k rest = Some v -> Dict.get k acc = None) ->
    exists visited todo,
      rest = visited ++ todo /\
      snd (sweep now rest acc w) =
        with_peers w (kept ++ active_entries now visited ++ todo) /\
      ((todo = [] /\
        fst (sweep now rest acc w) = Ok (acc ++ active_entries now rest)) \/
       (exists k info tl,
           todo = (k, info) :: tl /\ ~ active_at now info /\
           percent_format (stale_log k (now - last_seen info)) = None /\
           fst (sweep now rest acc w) = Raise FormatError)).
Proof.
  induction rest as [|[k info] rest IH]; intros kept acc w Hw Hwf Hfresh.
  - exists [], []. simpl. rewrite app_nil_r in *.
    repeat split.
    + destruct w; unfold with_peers; simpl in *; now subst.
    + left. now rewrite app_nil_r.
  - destruct (wf_drop_middle _ _ _ _ Hwf) as (Hwf' & Hk1 & Hk2).
    simpl sweep.
    destruct (Qltb (now - last_seen info) stale_timeout) eqn:Hact.
    + (* active: the entry goes to [active_peers] *)
      assert (Hacc : Dict.get k acc = None).
      { apply (Hfresh k info). simpl. now rewrite String.eqb_refl. }
      rewrite (set_absent _ _ _ Hacc).
      destruct (IH (kept ++ [(k, info)]) (acc ++ [(k, info)]) w)
        as (visited & todo & Hrest & Hsnd & Hfst).
      * now rewrite <- app_assoc.
      * now rewrite <- app_assoc.
      * intros k' v' Hk'. apply get_app_none. split.
        -- apply (Hfresh k' v'). simpl.
           destruct (String.eqb k' k) eqn:E; auto.
           apply String.eqb_eq in E. subst. congruence.
        -- simpl. destruct (String.eqb k' k) eqn:E; auto.
           apply String.eqb_eq in E. subst. congruence.
      * exists ((k, info) :: visited), todo. split; [now rewrite Hrest|].
        split.
        -- rewrite Hsnd, !active_entries_cons. simpl snd. rewrite Hact.
           now rewrite <- !app_assoc.
        -- destruct Hfst as [[Ht Hf]|Hf]; [left|right; exact Hf].
           split; auto. rewrite Hf, !active_entries_cons. simpl snd.
           rewrite Hact. now rewrite <- app_assoc.
    + (* stale: log, then delete *)
      cbn. unfold log_message.
      destruct (percent_format (stale_log k (now - last_seen info))) eqn:Hlog.
      * cbn. rewrite Hw, (del_middle _ _ _ _ Hk1). cbn.
        destruct (IH kept acc (with_peers w (kept ++ rest)))
          as (visited & todo & Hrest & Hsnd & Hfst); auto.
        { intros k' v' Hk'. apply (Hfresh k' v'). simpl.
          destruct (String.eqb k' k) eqn:E; auto.
          apply String.eqb_eq in E. subst. congruence. }
        exists ((k, info) :: visited), todo. split; [now rewrite Hrest|].
        split.
        -- rewrite Hsnd, !active_entries_cons. simpl snd. rewrite Hact.
           reflexivity.
        -- destruct Hfst as [[Ht Hf]|Hf]; [left|right; exact Hf].
           split; auto. rewrite Hf, !active_entries_cons. simpl snd.
           now rewrite Hact.
      * cbn. exists [], ((k, info) :: rest). repeat split.
        -- simpl. rewrite <- Hw. now destruct w.
        -- right. exists k, info, rest. repeat split; auto.
           now apply stale_test.
Qed.

(** *** Log lines that always format *)

Lemma percent_format_free_app (a b : string) :
  percent_free a = true ->
  percent_format (a ++ b) = option_map (String.append a) (percent_format b).
Proof.
  induction a as [|c a IH]; simpl.
  - intros _. now destruct (percent_format b).
  - intros H. apply andb_true_iff in H as [Hc Ha].
    apply negb_true_iff in Hc. unfold percent_format at 1.
    simpl String.append. rewrite Hc. fold percent_format.
    rewrite (IH Ha). now destruct (percent_format b).
Qed.

Lemma percent_format_free (a : string) :
  percent_free a = true -> percent_format a = Some a.
Proof.
  induction a as [|c a IH]; simpl; [reflexivity|].
  intros H. apply andb_true_iff in H as [Hc Ha].
  apply negb_true_iff in Hc. unfold percent_format.
  rewrite Hc. fold percent_format. now rewrite (IH Ha).
Qed.

Lemma percent_free_app (a b : string) :
  percent_free (a ++ b) = percent_free a && percent_free b.
Proof.
  induction a as [|c a IH]; simpl; [reflexivity|].
  now rewrite IH, andb_assoc.
Qed.

Lemma string_of_uint_free (d : Decimal.uint) :
  percent_free (NilEmpty.string_of_uint d) = true.
Proof. induction d; simpl; auto. Qed.

Lemma str_of_int_free (n : Z) : percent_free (str_of_int n) = true.
Proof.
  unfold str_of_int, NilZero.string_of_int, NilZero.string_of_uint.
  destruct (Z.to_int n) as [d|d]; destruct d; simpl;
    auto using string_of_uint_free.
Qed.

Lemma returned_log_formats (n : Z) :
  percent_format (returned_log n) = Some (returned_log n).
Proof.
  apply percent_format_free. unfold returned_log.
  now rewrite !percent_free_app, str_of_int_free.
Qed.

(** *** The listing handler *)

(** The handler, from any well-formed registry: either the whole registry
    was swept and the active entries are listed, or the loop stopped at a
    stale entry whose log line cannot be formatted, the entries from there
    on are still stored and the reply is the 500 error. *)
Lemma do_GET_peers_run (now : Q) (w : world) :
  Dict.wf (peers w) = true ->
  exists visited todo,
    peers w = visited ++ todo /\
    ((todo = [] /\
      do_GET_peers now w =
        (Ok tt,
         with_reply (with_peers w (active_entries now (peers w)))
           (Listing200 (active_entries now (peers w))
                       (Dict.len (active_entries now (peers w))) now))) \/
     (exists k info tl,
         todo = (k, info) :: tl /\ ~ active_at now info /\
         percent_format (stale_log k (now - last_seen info)) = None /\
         do_GET_peers now w =
           (Ok tt,
            with_reply (with_peers w (active_entries now visited ++ todo))
              Error500))).
Proof.
  intros Hwf.
  destruct (sweep_run now (peers w) [] [] w eq_refl Hwf (fun _ _ _ => eq_refl))
    as (visited & todo & Hrest & Hsnd & Hfst).
  exists visited, todo. split; [exact Hrest|].
  unfold do_GET_peers. cbn. unfold Dict.items.
  destruct (sweep now (peers w) [] w) as [r w1] eqn:Hrun.
  simpl in Hsnd, Hfst. subst w1.
  destruct Hfst as [[Ht Hf]|(k & info & tl & Ht & Hst & Hlog & Hf)]; subst r.
  - left. split; [exact Ht|]. cbn.
    unfold log_message. rewrite returned_log_formats. cbn.
    subst todo. rewrite app_nil_r in Hrest. now rewrite <- Hrest, app_nil_r.
  - right. exists k, info, tl. repeat split; auto.
Qed.

Lemma get_app {V : Type} (k : string) (d d' : Dict.t V) :
  Dict.get k (d ++ d') =
    match Dict.get k d with
    | Some v => Some v
    | None => Dict.get k d'
    end.
Proof.
  induction d as [|[k0 v0] d IH]; simpl; [reflexivity|].
  now destruct (String.eqb k k0).
Qed.

(** The active entries of a well-formed registry, by key. *)
Lemma active_entries_get (now : Q) (d : Dict.t peer_info) (k : string)
    (info : peer_info) :
  Dict.wf d = true ->
  (Dict.get k (active_entries now d) = Some info <->
   Dict.get k d = Some info /\ active_at now info).
Proof.
  intros Hwf. unfold active_entries. rewrite (get_filter _ _ _ Hwf).
  destruct (Dict.get k d) as [v|]; simpl.
  - destruct (Qltb (now - last_seen v) stale_timeout) eqn:E.
    + apply active_test in E. split.
      * intros [= ->]. auto.
      * intros [[= ->] _]. reflexivity.
    + apply stale_test in E. split; [discriminate|].
      intros [[= ->] H]. contradiction.
  - split; [discriminate | intros [H _]; discriminate].
Qed.

(** With every stale log line formattable, the listing succeeds: it evicts
    the stale entries and lists the others. *)
Lemma listing_evicts_stale (now : Q) (w : world) :
  Dict.wf (peers w) = true ->
  stale_logs_format now (peers w) ->
  do_GET_peers now w =
    (Ok tt,
     with_reply (with_peers w (active_entries now (peers w)))
       (Listing200 (active_entries now (peers w))
                   (Dict.len (active_entries now (peers w))) now)).
Proof.
  intros Hwf Hlogs.
  destruct (do_GET_peers_run now w Hwf)
    as (visited & todo & Hrest & [[_ Hrun]|(k & info & tl & Ht & Hst & Hlog & _)]).
  - exact Hrun.
  - exfalso. apply (Hlogs k info); auto.
    rewrite Hrest, Ht. apply in_or_app. right. now left.
Qed.

(** Whatever the listing replies, no active record leaves the registry. *)
Lemma listing_keeps_active (now : Q) (w : world) (k : string) (info : peer_info) :
  Dict.wf (peers w) = true ->
  Dict.get k (peers w) = Some info -> active_at now info ->
  Dict.get k (peers (snd (do_GET_peers now w))) = Some info.
Proof.
  intros Hwf Hget Hact.
  destruct (do_GET_peers_run now w Hwf)
    as (visited & todo & Hrest & [[_ Hrun]|(k' & info' & tl & Ht & _ & _ & Hrun)]);
    rewrite Hrun; cbn.
  - apply active_entries_get; auto.
  - rewrite Hrest in Hwf, Hget. destruct (wf_app _ _ Hwf) as (Wv & Wt & Wd).
    rewrite get_app in Hget. rewrite get_app.
    destruct (Dict.get k visited) as [v|] eqn:Hv.
    + injection Hget as ->.
      now rewrite (proj2 (active_entries_get now visited k info Wv) (conj Hv Hact)).
    + unfold active_entries. now rewrite (get_filter_none _ _ _ Hv).
Qed.

(** A listing reply that follows a run from a well-formed registry lists
    the active entries of that registry. *)
Lemma listing_reply_is_active (now : Q) (w : world) (listed : Dict.t peer_info)
    (n : Z) (ts : Q) :
  Dict.wf (peers w) = true ->
  wrote w (snd (do_GET_peers now w)) [Listing200 listed n ts] ->
  listed = active_entries now (peers w) /\ n = Dict.len listed /\ ts = now /\
  peers (snd (do_GET_peers now w)) = listed.
Proof.
  intros Hwf.
  destruct (do_GET_peers_run now w Hwf)
    as (visited & todo & Hrest & [[_ Hrun]|(k' & info' & tl & _ & _ & _ & Hrun)]);
    rewrite Hrun; unfold wrote; cbn; intros H; apply app_inv_head in H.
  - injection H as <- <- <-. auto.
  - discriminate.
Qed.

(** ** Statistics *)

Lemma do_GET_stats_run (now : Q) (w : world) :
  do_GET_stats now w =
    (Ok tt,
     with_reply w
       (let active_peers :=
          filter (fun info => Qltb (now - last_seen info) 300)
                 (Dict.values (peers w)) in
        let public_peers := filter is_public active_peers in
        Stats200 (Dict.len (peers w))
                 (Z.of_nat (List.length active_peers))
                 (Z.of_nat (List.length public_peers))
                 (Z.of_nat (List.length active_peers)
                  - Z.of_nat (List.length public_peers))
                 (int_of_float (now - server_start_time w)))).
Proof. reflexivity. Qed.

Lemma counts_filter {A : Type} (P : A -> Prop) (f : A -> bool) (l : list A) :
  (forall a, f a = true <-> P a) ->
  counts P l (List.length (filter f l)).
Proof.
  intros Hf. induction l as [|a l IH]; simpl.
  - constructor.
  - destruct (f a) eqn:E; simpl.
    + apply counts_hit; auto. now apply Hf.
    + apply counts_miss; auto. rewrite <- Hf, E. discriminate.
Qed.

Lemma counts_unique {A : Type} (P : A -> Prop) (l : list A) (n m : nat) :
  counts P l n -> counts P l m -> n = m.
Proof.
  intros Hn. revert m. induction Hn; intros m Hm; inversion Hm; subst;
    auto; contradiction.
Qed.

Lemma filter_filter_and {A : Type} (f g : A -> bool) (l : list A) :
  filter g (filter f l) = filter (fun a => f a && g a) l.
Proof.
  induction l as [|a l IH]; simpl; [reflexivity|].
  destruct (f a); simpl; [destruct (g a)|]; now rewrite IH.
Qed.

Lemma stats_counts_hold (now : Q) (w : world) :
  let active_peers :=
    filter (fun info => Qltb (now - last_seen info) 300)
           (Dict.values (peers w)) in
  let public_peers := filter is_public active_peers in
  stats_counts now w (Dict.len (peers w))
    (Z.of_nat (List.length active_peers))
    (Z.of_nat (List.length public_peers))
    (Z.of_nat (List.length active_peers) - Z.of_nat (List.length public_peers)).
Proof.
  cbv zeta. unfold stats_counts, Dict.len, Dict.values.
  set (act := fun info => Qltb (now - last_seen info) 300).
  pose proof (filter_length_le is_public (filter act (map snd (peers w)))) as Hp.
  pose proof (filter_length_le act (map snd (peers w))) as Ha.
  rewrite length_map in Ha.
  repeat split; try lia.
  exists (List.length (filter act (map snd (peers w)))),
         (List.length (filter is_public (filter act (map snd (peers w))))).
  repeat split.
  - apply counts_filter. intros info. apply (active_test now info).
  - rewrite filter_filter_and. apply counts_filter. intros info.
    unfold active_public_at. rewrite andb_true_iff.
    now rewrite <- (active_test now info).
Qed.

(** *** [int] on a timestamp difference *)

Lemma int_of_float_integer (n : Z) (x : Q) :
  (x == inject_Z n)%Q -> int_of_float x = n.
Proof.
  unfold int_of_float, Qeq. simpl. intros H.
  rewrite Z.mul_1_r in H. rewrite H. apply Z.quot_mul. discriminate.
Qed.

Lemma int_of_float_bounds (x : Q) :
  (Qabs (inject_Z (int_of_float x)) <= Qabs x)%Q /\
  (Qabs x < Qabs (inject_Z (int_of_float x)) + 1)%Q /\
  (0 <= inject_Z (int_of_float x) * x)%Q.
Proof.
  destruct x as [n d]. unfold int_of_float, Qle, Qlt, Qabs, inject_Z, Qplus, Qmult.
  simpl. rewrite !Z.mul_1_r, ?Pos.mul_1_l.
  assert (Hd : (0 < Z.pos d)%Z) by lia.
  pose proof (Z.quot_abs n (Z.pos d) ltac:(lia)) as Habs.
  assert (Hq : (Z.abs (Z.quot n (Z.pos d)) = Z.abs n / Z.pos d)%Z).
  { rewrite <- Habs. rewrite (Z.abs_eq (Z.pos d)) by lia.
    apply Z.quot_div_nonneg; lia. }
  rewrite Hq.
  pose proof (Z.mul_div_le (Z.abs n) (Z.pos d) Hd).
  pose proof (Z.mul_succ_div_gt (Z.abs n) (Z.pos d) Hd).
  repeat split; try lia.
  destruct (Z.le_gt_cases 0 n) as [Hn|Hn].
  - pose proof (Z.quot_pos n (Z.pos d) Hn Hd). nia.
  - assert (Z.quot n (Z.pos d) <= 0)%Z by (apply Z.quot_le_upper_bound; lia || nia).
    nia.
Qed.

(** C5 as stated fails on the uptime: one and a half seconds after the
    start the reply carries [uptime_seconds = 1]. *)
Lemma stats_uptime_not_exact :
  exists r,
    do_GET_stats (3 # 2) empty_world = (Ok tt, with_reply empty_world r) /\
    ~ stats_as_stated (3 # 2) empty_world r.
Proof.
  eexists. split; [apply do_GET_stats_run|].
  cbv beta iota zeta delta [stats_as_stated]. intro H. destruct H as [_ H].
  vm_compute in H. discriminate.
Qed.

(** C5, amended. The statistics reply carries [total] = the number of stored
    records, stale ones included, [active] = the number of records with
    [now - last_seen < 300], [public] = the number of active records with
    [is_public] set, [private = active - public] (so [public + private =
    active] and [public <= active <= total]), and [uptime_seconds] = the
    whole seconds of [now - server_start_time], rounded toward zero; the
    registry is not changed. When the difference is a whole number the reply
    is the one the specification states. *)
Theorem stats_reply :
  forall (now : Q) (w : world),
    exists r,
      do_GET_stats now w = (Ok tt, with_reply w r) /\
      stats_truncated now w r /\
      ((exists n, now - server_start_time w == inject_Z n)%Q <->
       stats_as_stated now w r).
Proof.
  intros now w. eexists. split; [apply do_GET_stats_run|].
  cbv beta iota zeta delta [stats_truncated stats_as_stated].
  pose proof (stats_counts_hold now w) as Hc. cbv zeta in Hc.
  pose proof (int_of_float_bounds (now - server_start_time w)) as (B1 & B2 & B3).
  split; [split; [exact Hc | repeat split; auto]|].
  split.
  - intros [n Hn]. split; [exact Hc|].
    rewrite (int_of_float_integer n _ Hn). now symmetry.
  - intros [_ H]. eexists. symmetry. exact H.
Qed.

(** ** Address keys and defaults *)

Lemma supplies_address_or_else (data : register_body) (addr : string) :
  addr <> "" -> supplies_address data addr ->
  or_else (body_ip data) (body_ip_address data) = Some addr.
Proof.
  intros Hne [H|[H1 H2]]; unfold or_else.
  - rewrite H. simpl. apply falsy_str_false in Hne. now rewrite Hne.
  - now rewrite H1.
Qed.

(** The record found under the peer id after an accepted registration. *)
Lemma accepted_record (data : register_body) (now : Q) (w : world)
    (peer ip_ : string) :
  body_peer_id data = Some peer -> peer <> "" ->
  or_else (body_ip data) (body_ip_address data) = Some ip_ -> ip_ <> "" ->
  Dict.get peer (peers (snd (do_POST_register data now w))) =
    Some (stored_record data peer ip_ now
            match Dict.get peer (peers w) with
            | Some old => registered_at old
            | None => now
            end).
Proof.
  intros Hp Hpne Hi Hine.
  rewrite (accepted_peers data now w peer ip_ Hp Hpne Hi Hine), register_run.
  cbn [snd peers with_peers]. now rewrite get_set_same.
Qed.

(** C8. The address is taken from [ip] when that key carries one and from
    [ip_address] otherwise, and bodies that supply the same address under
    either key are handled alike; a body without [port] stores 8443 and a
    body without [is_public] stores false. *)
Theorem register_address_key_and_defaults :
  forall (data : register_body) (now : Q) (w : world) (peer addr : string),
    body_peer_id data = Some peer -> peer <> "" -> addr <> "" ->
    supplies_address data addr ->
    let w' := snd (do_POST_register data now w) in
    (exists rest, wrote w w' (Registered201 peer :: rest)) /\
    (exists r,
        Dict.get peer (peers w') = Some r /\
        ip r = addr /\
        port r = match body_port data with Some p => p | None => 8443%Z end /\
        is_public r =
          match body_is_public data with Some b => b | None => false end) /\
    (forall data',
        body_peer_id data' = Some peer ->
        body_port data' = body_port data ->
        body_is_public data' = body_is_public data ->
        supplies_address data' addr ->
        do_POST_register data' now w = do_POST_register data now w).
Proof.
  intros data now w peer addr Hp Hpne Hane Haddr. cbv zeta.
  pose proof (supplies_address_or_else data addr Hane Haddr) as Hi.
  split; [|split].
  - now apply (accepted_reply data now w peer addr).
  - eexists. split; [apply (accepted_record data now w peer addr); auto|].
    repeat split.
  - intros data' Hp' Hport Hpub Haddr'.
    pose proof (supplies_address_or_else data' addr Hane Haddr') as Hi'.
    rewrite (do_POST_register_accepts data now w peer addr Hp Hpne Hi Hane).
    rewrite (do_POST_register_accepts data' now w peer addr Hp' Hpne Hi' Hane).
    now rewrite Hport, Hpub.
Qed.

(** ** The boundary values of the staleness test *)

Lemma active_at_299 (now : Q) (info : peer_info) :
  (last_seen info == now - 299)%Q -> active_at now info.
Proof.
  unfold active_at. intros H. rewrite H.
  setoid_replace (now - (now - 299))%Q with (299 : Q) by ring.
  reflexivity.
Qed.

Lemma stale_at_300 (now : Q) (info : peer_info) :
  (last_seen info <= now - 300)%Q -> ~ active_at now info.
Proof.
  unfold active_at. intros H. apply Qle_not_lt.
  apply (Qplus_le_l _ _ (last_seen info)).
  setoid_replace (now - last_seen info + last_seen info)%Q with now by ring.
  apply (Qplus_le_l _ _ (- (300))).
  setoid_replace (300 + last_seen info + - (300))%Q with (last_seen info) by ring.
  exact H.
Qed.

(** ** Eviction by the listing *)

(** A peer id without [%] in its first 16 characters gives a log line
    that formats. *)
Lemma stale_log_formats (peer : string) (age : Q) :
  percent_free (slice16 peer) = true ->
  percent_format (stale_log peer age) <> None.
Proof.
  intros H.
  rewrite (percent_format_free (stale_log peer age)); [discriminate|].
  unfold stale_log. now rewrite !percent_free_app, H, str_of_int_free.
Qed.

(** With every stale log line formattable, the listing does what the
    specification states. *)
Lemma listing_exact_when_logs_format (now : Q) (w : world) :
  Dict.wf (peers w) = true ->
  stale_logs_format now (peers w) ->
  listing_as_stated now w.
Proof.
  intros Hwf Hlogs. exists (active_entries now (peers w)).
  rewrite (listing_evicts_stale now w Hwf Hlogs). cbn [snd].
  split; [reflexivity|]. split; [reflexivity|].
  intros k info. now apply active_entries_get.
Qed.

(** In particular when no stored peer id has a [%] in its first 16
    characters. *)
Lemma listing_exact_percent_free (now : Q) (w : world) :
  Dict.wf (peers w) = true ->
  (forall k info, In (k, info) (peers w) -> percent_free (slice16 k) = true) ->
  listing_as_stated now w.
Proof.
  intros Hwf Hfree. apply listing_exact_when_logs_format; auto.
  intros k info Hin _. apply stale_log_formats. now apply (Hfree k info).
Qed.

(** C3, on a registry the code cannot sweep. The peer id [50%off] is
    accepted by the registration handler and stored. Once that record is
    stale, the listing raises in the log call that precedes the deletion:
    the reply is the 500 error, no listing is returned and the stale record
    stays in the registry, so the listing is not the one the specification
    states. *)
Theorem listing_stuck_on_percent_peer :
  do_POST_register body_percent 0 empty_world = (Ok tt, world_percent) /\
  Dict.wf (peers world_percent) = true /\
  Dict.get "50%off" (peers world_percent) = Some info_percent /\
  ~ active_at 301 info_percent /\
  percent_format (stale_log "50%off" (301 - last_seen info_percent)) = None /\
  do_GET_peers 301 world_percent = (Ok tt, with_reply world_percent Error500) /\
  peers (snd (do_GET_peers 301 world_percent)) = peers world_percent /\
  ~ listing_as_stated 301 world_percent.
Proof.
  assert (Hrun : do_GET_peers 301 world_percent =
                 (Ok tt, with_reply world_percent Error500)) by reflexivity.
  repeat apply conj; try reflexivity.
  - apply stale_at_300. vm_compute. discriminate.
  - intros [listed [Hw _]]. rewrite Hrun in Hw. unfold wrote in Hw.
    cbn in Hw. discriminate.
Qed.

(** ** Reads that do not evict *)

Lemma do_GET_stats_frame (now : Q) (w : world) :
  peers (snd (do_GET_stats now w)) = peers w /\
  server_start_time (snd (do_GET_stats now w)) = server_start_time w.
Proof. rewrite do_GET_stats_run. split; reflexivity. Qed.

Section ReadsOnly.
Variable py_int : string -> option Z.

(** Any sequence of lookups and statistics requests leaves the registry
    as it was. *)
Lemma serve_reads_only (rs : list (request * Q)) (w : world) :
  forallb reads_only (map fst rs) = true ->
  peers (serve py_int rs w) = peers w /\
  server_start_time (serve py_int rs w) = server_start_time w.
Proof.
  revert w. induction rs as [|[r now] rs IH]; intros w; simpl.
  - auto.
  - intros H. apply andb_true_iff in H as [Hr Hrs].
    destruct (IH (snd (handle py_int r now w)) Hrs) as [Hp Hs].
    rewrite Hp, Hs.
    destruct r; simpl in Hr; try discriminate; simpl handle.
    + apply do_GET_lookup_frame.
    + apply do_GET_stats_frame.
Qed.

(** Lazy eviction, where the listing can run. A stale record survives
    any number of lookups and statistics requests: it is still stored,
    still counted in [total_peers], and not returned by a lookup. A
    listing whose stale log lines all format removes it, and lookups
    on the registry the listing left return nothing for it. *)
Lemma lazy_eviction_when_logs_format (rs : list (request * Q)) (now : Q)
    (w : world) (peer : string) (info : peer_info) :
  Dict.wf (peers w) = true ->
  Dict.get peer (peers w) = Some info ->
  ~ active_at now info ->
  forallb reads_only (map fst rs) = true ->
  let w1 := serve py_int rs w in
  Dict.get peer (peers w1) = Some info /\
  lookup peer now (peers w1) = [] /\
  (exists active public private uptime,
      wrote w1 (snd (do_GET_stats now w1))
            [Stats200 (Dict.len (peers w)) active public private uptime]) /\
  (stale_logs_format now (peers w1) ->
   let w2 := snd (do_GET_peers now w1) in
   Dict.get peer (peers w2) = None /\
   (List.length (peers w2) < List.length (peers w))%nat /\
   forall later, lookup peer later (peers w2) = []).
Proof.
  intros Hwf Hget Hst Hrs. cbv zeta.
  destruct (serve_reads_only rs w Hrs) as [Hp _].
  set (w1 := serve py_int rs w) in *.
  assert (Hget1 : Dict.get peer (peers w1) = Some info) by now rewrite Hp.
  assert (Hwf1 : Dict.wf (peers w1) = true) by now rewrite Hp.
  split; [exact Hget1|].
  split; [now apply lookup_stale with (info := info)|].
  split.
  - rewrite do_GET_stats_run. cbv zeta. do 4 eexists.
    unfold wrote. cbn [wfile with_reply]. rewrite Hp. reflexivity.
  - intros Hlogs.
    rewrite (listing_evicts_stale now w1 Hwf1 Hlogs). cbn [snd].
    cbn [peers with_reply with_peers]. rewrite Hp.
    assert (Hnone : Dict.get peer (active_entries now (peers w)) = None).
    { destruct (Dict.get peer (active_entries now (peers w))) as [i|] eqn:E; auto.
      apply active_entries_get in E; auto. destruct E as [E1 E2].
      rewrite Hget in E1. injection E1 as ->. contradiction. }
    split; [exact Hnone|]. split.
    + unfold active_entries. clear - Hget Hst.
      induction (peers w) as [|[k0 v0] d IH]; simpl in *; [discriminate|].
      destruct (String.eqb peer k0) eqn:E.
      * injection Hget as ->. apply stale_test in Hst. rewrite Hst.
        pose proof (filter_length_le
          (fun kv : string * peer_info =>
             Qltb (now - last_seen (snd kv)) stale_timeout) d). lia.
      * specialize (IH Hget).
        destruct (Qltb (now - last_seen v0) stale_timeout); simpl; lia.
    + intros later. now apply lookup_absent.
Qed.

End ReadsOnly.

(** C4, on a registry the code cannot sweep. Two peers register, [50%off]
    and [abc]. When both are stale a lookup returns nothing and the
    statistics report two stored records, as specified; but the listing
    that follows answers with the 500 error, and afterwards both records
    are still stored and still counted in [total_peers]. *)
Theorem stale_peer_survives_listing :
  let w := serve decimal_int two_registrations empty_world in
  let w' := serve decimal_int
              [(GET_lookup query_abc, 302); (GET_stats, 302);
               (GET_peers, 302); (GET_stats, 303)] w in
  Dict.get "abc" (peers w) =
    Some {| peer_id := "abc"; ip := "10.0.0.1"; port := 9000;
            is_public := true; last_seen := 1; registered_at := 1 |} /\
  Dict.get "50%off" (peers w) = Some info_percent /\
  wrote w w' [Lookup200 [] 0; Stats200 2 0 0 0 302; Error500;
              Stats200 2 0 0 0 303] /\
  peers w' = peers w.
Proof. repeat split. Qed.

(** ** Unique keys are an invariant of the server *)

Lemma wf_filter_app {V : Type} (f : string * V -> bool) (d d' : Dict.t V) :
  Dict.wf (d ++ d') = true -> Dict.wf (filter f d ++ d') = true.
Proof.
  induction d as [|[k v] d IH]; [auto|].
  rewrite <- app_comm_cons, wf_cons, get_app_none. intros [[H1 H2] Hwf].
  simpl filter. destruct (f (k, v)); auto.
  rewrite <- app_comm_cons, wf_cons, get_app_none.
  auto using get_filter_none.
Qed.

Section Invariant.
Variable py_int : string -> option Z.

Lemma handle_wf (r : request) (now : Q) (w : world) :
  Dict.wf (peers w) = true ->
  Dict.wf (peers (snd (handle py_int r now w))) = true.
Proof.
  intros Hwf. destruct r as [data|q| |]; simpl handle.
  - destruct (falsy (body_peer_id data)
              || falsy (or_else (body_ip data) (body_ip_address data))) eqn:F.
    + now rewrite (do_POST_register_rejects data now w F).
    + apply orb_false_iff in F as [Fp Fi].
      destruct (body_peer_id data) as [peer|] eqn:Hp; [|discriminate].
      destruct (or_else (body_ip data) (body_ip_address data)) as [ip_|] eqn:Hi;
        [|discriminate].
      simpl in Fp, Fi. apply falsy_str_false in Fp, Fi.
      rewrite (do_POST_register_accepts data now w peer ip_ Hp Fp Hi Fi).
      rewrite register_run. cbn [snd].
      destruct (percent_format _); cbn [peers with_reply with_peers];
        now apply wf_set.
  - now rewrite (proj1 (do_GET_lookup_frame py_int q now w)).
  - destruct (do_GET_peers_run now w Hwf)
      as (visited & todo & Hrest & [[_ Hrun]|(k & info & tl & _ & _ & _ & Hrun)]);
      rewrite Hrun; cbn [snd peers with_reply with_peers].
    + now apply wf_filter.
    + apply wf_filter_app. now rewrite <- Hrest.
  - now rewrite (proj1 (do_GET_stats_frame now w)).
Qed.

Lemma serve_wf (rs : list (request * Q)) (w : world) :
  Dict.wf (peers w) = true -> Dict.wf (peers (serve py_int rs w)) = true.
Proof.
  revert w. induction rs as [|[r now] rs IH]; intros w Hwf; simpl; auto.
  apply IH. now apply handle_wf.
Qed.

(** ** Registrations served one after the other *)

(** Registrations of peers that are not stored yet, with distinct ids,
    append their entries in arrival order. *)
Lemma serve_registrations (regs : list (register_body * Q)) :
  forall (entries : Dict.t peer_info) (w : world),
    map entry_of regs = map Some entries ->
    Dict.wf (peers w ++ entries) = true ->
    peers (serve py_int (register_requests regs) w) = peers w ++ entries.
Proof.
  induction regs as [|[data t] regs IH]; intros [|[k rec] entries] w Hmap Hwf;
    try discriminate.
  - simpl. now rewrite app_nil_r.
  - simpl in Hmap. injection Hmap as Hentry Hmap.
    unfold entry_of in Hentry. simpl fst in Hentry. simpl snd in Hentry.
    destruct (body_peer_id data) as [peer|] eqn:Hp; [|discriminate].
    destruct (or_else (body_ip data) (body_ip_address data)) as [addr|] eqn:Hi;
      [|discriminate].
    destruct (falsy_str peer || falsy_str addr) eqn:F; [discriminate|].
    injection Hentry as <- <-.
    apply orb_false_iff in F as [Fp Fi]. apply falsy_str_false in Fp, Fi.
    destruct (wf_drop_middle _ _ _ _ Hwf) as (_ & Hfresh & _).
    simpl serve. simpl handle. simpl fst. simpl snd.
    rewrite (IH entries).
    + rewrite (do_POST_register_accepts data t w peer addr Hp Fp Hi Fi).
      rewrite register_run. cbn [snd].
      destruct (percent_format _); cbn [peers with_reply with_peers];
        rewrite Hfresh, (set_absent _ _ _ Hfresh), <- app_assoc; reflexivity.
    + exact Hmap.
    + rewrite (do_POST_register_accepts data t w peer addr Hp Fp Hi Fi).
      rewrite register_run. cbn [snd].
      destruct (percent_format _); cbn [peers with_reply with_peers];
        rewrite Hfresh, (set_absent _ _ _ Hfresh), <- app_assoc; exact Hwf.
Qed.

Lemma active_entries_all (now : Q) (d : Dict.t peer_info) :
  (forall k info, In (k, info) d -> active_at now info) ->
  active_entries now d = d.
Proof.
  induction d as [|[k info] d IH]; intros H; [reflexivity|].
  rewrite active_entries_cons. simpl snd.
  rewrite (proj2 (active_test now info) (H k info (or_introl eq_refl))).
  rewrite IH; auto. intros k' info' Hin. apply (H k' info'). now right.
Qed.

(** N registrations of distinct peer ids, served in any arrival order from
    an empty registry, are all in a listing taken while they are active,
    and the listing counts N. *)
Lemma serial_registrations_all_listed (regs : list (register_body * Q))
    (entries : Dict.t peer_info) (now : Q) :
  map entry_of regs = map Some entries ->
  Dict.wf entries = true ->
  (forall k info, In (k, info) entries -> active_at now info) ->
  let w := serve py_int (register_requests regs) empty_world in
  do_GET_peers now w =
    (Ok tt, with_reply w (Listing200 entries (Z.of_nat (List.length regs)) now)).
Proof.
  intros Hmap Hwf Hact. cbv zeta.
  pose proof (serve_registrations regs entries empty_world Hmap Hwf) as Hp.
  simpl in Hp.
  set (w := serve py_int (register_requests regs) empty_world) in *.
  assert (Hwf' : Dict.wf (peers w) = true) by now rewrite Hp.
  rewrite (listing_evicts_stale now w Hwf').
  - rewrite Hp, (active_entries_all now entries Hact). unfold Dict.len.
    replace (List.length entries) with (List.length regs).
    + rewrite <- Hp. now destruct w.
    + rewrite <- (length_map entry_of regs), Hmap. apply length_map.
  - intros k info Hin Hst. exfalso. apply Hst. apply (Hact k info).
    now rewrite <- Hp.
Qed.

End Invariant.

(** ** The scenario of the specification, end to end *)

(** [abc] registers at time 100 and is found by a lookup at 200; seen from
    401 it is stale: the lookup returns nothing, the statistics still count
    one stored record, the listing evicts it and the statistics then count
    none. *)
Lemma end_to_end_scenario :
  serve decimal_int
    [(POST_register body_abc, 100); (GET_lookup query_abc, 200);
     (GET_lookup query_abc, 401); (GET_stats, 401); (GET_peers, 401);
     (GET_stats, 402)] empty_world =
  {| peers := [];
     server_start_time := 0;
     wfile := [Registered201 "abc";
               Lookup200 [view_of info_abc] 1;
               Lookup200 [] 0;
               Stats200 1 0 0 0 401;
               Listing200 [] 0 401;
               Stats200 0 0 0 0 402] |}.
Proof. reflexivity. Qed.

(** ** The theorems at concrete inputs *)

(** Re-registering [abc] at time 200 under [ip_address], without [port]
    and [is_public]: the record is replaced in place and keeps
    [registered_at = 100]. *)
Lemma register_upsert_witness :
  let w' := snd (do_POST_register body_abc_moved 200 world_abc) in
  fst (register "abc" "10.0.0.2" 8443 false 200 world_abc) = Ok false /\
  Dict.get "abc" (peers w') =
    Some {| peer_id := "abc"; ip := "10.0.0.2"; port := 8443;
            is_public := false; last_seen := 200; registered_at := 100 |} /\
  List.length (peers w') = 1%nat.
Proof.
  destruct (register_upsert body_abc_moved 200 world_abc "abc" "10.0.0.2"
              eq_refl ltac:(discriminate) eq_refl ltac:(discriminate))
    as (_ & _ & _ & Hold & _).
  exact (Hold info_abc eq_refl).
Defined.


(** Supplying the address under [ip_address], without [port] and
    [is_public]. *)
Lemma register_address_key_and_defaults_witness :
  exists r,
    Dict.get "abc" (peers (snd (do_POST_register body_abc_moved 200 empty_world)))
      = Some r /\
    ip r = "10.0.0.2" /\ port r = 8443%Z /\ is_public r = false.
Proof.
  destruct (register_address_key_and_defaults body_abc_moved 200 empty_world
              "abc" "10.0.0.2" eq_refl ltac:(discriminate) ltac:(discriminate)
              (or_intror (conj eq_refl eq_refl)))
    as (_ & Hr & _).
  exact Hr.
Defined.

(** [count=ten] is answered with the 500 error alone. *)
Lemma lookup_unparseable_count_witness :
  do_GET_lookup decimal_int query_abc_bad_count 200 world_abc =
    (Ok tt, with_reply world_abc Error500).
Proof.
  exact (proj1 (lookup_unparseable_count decimal_int query_abc_bad_count 200
                  world_abc "ten" eq_refl eq_refl)).
Defined.

(** ** Which log lines format *)

Lemma percent_format_eq (s : string) :
  percent_format s =
    match s with
    | EmptyString => Some EmptyString
    | String c rest =>
        if Ascii.eqb c "%" then
          match rest with
          | EmptyString => None
          | String c' rest' =>
              if Ascii.eqb c' "%"
              then option_map (String "%") (percent_format rest')
              else None
          end
        else option_map (String c) (percent_format rest)
    end.
Proof. destruct s; reflexivity. Qed.

Lemma percent_format_lone_bounded (n : nat) :
  forall s, (String.length s <= n)%nat ->
    (percent_format s = None <-> lone_percent s = true).
Proof.
  induction n as [|n IH]; intros s Hlen.
  - destruct s; simpl in Hlen; [|lia]. rewrite percent_format_eq. simpl.
    split; discriminate.
  - destruct s as [|c s]; [rewrite percent_format_eq; simpl; split; discriminate|].
    rewrite percent_format_eq. simpl lone_percent. simpl in Hlen.
    destruct (Ascii.eqb c "%").
    + destruct s as [|c' s']; [tauto|]. simpl in Hlen.
      destruct (Ascii.eqb c' "%"); [|tauto].
      rewrite <- (IH s') by lia. destruct (percent_format s'); simpl;
        split; congruence.
    + rewrite <- (IH s) by lia. destruct (percent_format s); simpl;
        split; congruence.
Qed.

(** [log_message] raises exactly on the formats with a lone [%]. *)
Lemma percent_format_none_iff (s : string) :
  percent_format s = None <-> lone_percent s = true.
Proof. apply (percent_format_lone_bounded (String.length s)). lia. Qed.

Lemma lone_percent_free (s : string) :
  percent_free s = true -> lone_percent s = false.
Proof.
  induction s as [|c s IH]; simpl; [reflexivity|].
  intros H. apply andb_true_iff in H as [Hc Hs].
  apply negb_true_iff in Hc. rewrite Hc. auto.
Qed.

Lemma lone_percent_free_app (a b : string) :
  percent_free a = true -> lone_percent (a ++ b) = lone_percent b.
Proof.
  induction a as [|c a IH]; simpl; [reflexivity|].
  intros H. apply andb_true_iff in H as [Hc Ha].
  apply negb_true_iff in Hc. rewrite Hc. auto.
Qed.

Lemma lone_percent_app_bounded (n : nat) (c : ascii) (q : string) :
  Ascii.eqb c "%" = false ->
  forall x, (String.length x <= n)%nat ->
    lone_percent (x ++ String c q) = lone_percent x || lone_percent q.
Proof.
  intros Hc. induction n as [|n IH]; intros x Hlen.
  - destruct x; simpl in Hlen; [|lia]. simpl. now rewrite Hc.
  - destruct x as [|c0 x]; [simpl; now rewrite Hc|]. simpl in Hlen.
    simpl. destruct (Ascii.eqb c0 "%").
    + destruct x as [|c1 x]; simpl; [now rewrite Hc|]. simpl in Hlen.
      destruct (Ascii.eqb c1 "%"); [|reflexivity].
      apply IH. lia.
    + apply IH. lia.
Qed.

(** A lone [%] in [x ++ q], where [q] starts with another character, is a
    lone [%] of [x] or of [q]. *)
Lemma lone_percent_app (x : string) (c : ascii) (q : string) :
  Ascii.eqb c "%" = false ->
  lone_percent (x ++ String c q) = lone_percent x || lone_percent q.
Proof.
  intros Hc. apply (lone_percent_app_bounded (String.length x) c q Hc). lia.
Qed.

Lemma str_of_bool_free (b : bool) : percent_free (str_of_bool b) = true.
Proof. now destruct b. Qed.

Lemma stale_log_lone (peer : string) (age : Q) :
  lone_percent (stale_log peer age) = lone_percent (slice16 peer).
Proof.
  unfold stale_log.
  rewrite lone_percent_free_app by reflexivity.
  change ("... (last seen " ++ str_of_int (int_of_float age) ++ "s ago)")%string
    with (String "." (".. (last seen " ++ str_of_int (int_of_float age) ++ "s ago)"))%string.
  rewrite lone_percent_app by reflexivity.
  rewrite (lone_percent_free (".. (last seen " ++ _)%string), orb_false_r;
    [reflexivity|].
  now rewrite !percent_free_app, str_of_int_free.
Qed.

Lemma lookup_log_lone (peer : string) (n : Z) :
  lone_percent (lookup_log peer n) = lone_percent (slice16 peer).
Proof.
  unfold lookup_log.
  rewrite lone_percent_free_app by reflexivity.
  change ("... returned " ++ str_of_int n ++ " peers")%string
    with (String "." (".. returned " ++ str_of_int n ++ " peers"))%string.
  rewrite lone_percent_app by reflexivity.
  rewrite (lone_percent_free (".. returned " ++ _)%string), orb_false_r;
    [reflexivity|].
  now rewrite !percent_free_app, str_of_int_free.
Qed.

Lemma authenticated_log_lone (peer : string) :
  lone_percent (authenticated_log peer) = lone_percent (slice16 peer).
Proof.
  unfold authenticated_log.
  rewrite lone_percent_free_app by reflexivity.
  change "..." with (String "." "..").
  rewrite lone_percent_app by reflexivity. apply orb_false_r.
Qed.

Lemma registered_log_lone (is_new : bool) (peer ip_ : string) (port_ : Z)
    (public_ : bool) :
  lone_percent (registered_log is_new peer ip_ port_ public_) =
    lone_percent (slice16 peer) || lone_percent ip_.
Proof.
  unfold registered_log.
  rewrite lone_percent_free_app by now destruct is_new.
  rewrite lone_percent_free_app by reflexivity.
  change ("... at " ++ ip_ ++ ":" ++ str_of_int port_ ++ " (public="
            ++ str_of_bool public_ ++ ")")%string
    with (String "." (".. at " ++ ip_ ++ ":" ++ str_of_int port_ ++ " (public="
            ++ str_of_bool public_ ++ ")"))%string.
  rewrite lone_percent_app by reflexivity.
  rewrite lone_percent_free_app by reflexivity.
  change (":" ++ str_of_int port_ ++ " (public=" ++ str_of_bool public_ ++ ")")%string
    with (String ":" (str_of_int port_ ++ " (public=" ++ str_of_bool public_ ++ ")"))%string.
  rewrite lone_percent_app by reflexivity.
  rewrite (lone_percent_free (str_of_int port_ ++ _)%string), orb_false_r;
    [reflexivity|].
  now rewrite !percent_free_app, str_of_int_free, str_of_bool_free.
Qed.

Lemma stale_log_raises_iff (peer : string) (age : Q) :
  percent_format (stale_log peer age) = None <->
  lone_percent (slice16 peer) = true.
Proof. now rewrite percent_format_none_iff, stale_log_lone. Qed.

Lemma all_stale_loggable_iff (now : Q) (d : Dict.t peer_info) :
  all_stale_loggable now d = true <-> stale_ids_loggable now d.
Proof.
  unfold all_stale_loggable, stale_ids_loggable. rewrite forallb_forall. split.
  - intros H k info Hin Hst. specialize (H (k, info) Hin). simpl in H.
    apply stale_test in Hst. rewrite Hst in H. simpl in H.
    now apply negb_true_iff in H.
  - intros H [k info] Hin. simpl.
    destruct (Qltb (now - last_seen info) stale_timeout) eqn:E; [reflexivity|].
    apply stale_test in E. simpl. now rewrite (H k info Hin E).
Qed.

Lemma stale_ids_loggable_logs (now : Q) (d : Dict.t peer_info) :
  stale_ids_loggable now d <-> stale_logs_format now d.
Proof.
  unfold stale_ids_loggable, stale_logs_format. split; intros H k info Hin Hst.
  - rewrite stale_log_raises_iff. now rewrite (H k info Hin Hst).
  - specialize (H k info Hin Hst). rewrite stale_log_raises_iff in H.
    now destruct (lone_percent (slice16 k)).
Qed.

(** ** The listing in every case *)

Lemma with_peers_same (w : world) : with_peers w (peers w) = w.
Proof. now destruct w. Qed.

Lemma after_listing_cons (now : Q) (k : string) (info : peer_info)
    (d : Dict.t peer_info) :
  after_listing now ((k, info) :: d) =
    if Qltb (now - last_seen info) stale_timeout
    then (k, info) :: after_listing now d
    else if lone_percent (slice16 k) then (k, info) :: d
    else after_listing now d.
Proof. reflexivity. Qed.

Lemma all_stale_loggable_cons (now : Q) (k : string) (info : peer_info)
    (d : Dict.t peer_info) :
  all_stale_loggable now ((k, info) :: d) =
    (Qltb (now - last_seen info) stale_timeout || negb (lone_percent (slice16 k)))
    && all_stale_loggable now d.
Proof. reflexivity. Qed.

Lemma sweep_cons (now : Q) (peer : string) (info : peer_info)
    (rest : list (string * peer_info)) (acc : Dict.t peer_info) :
  sweep now ((peer, info) :: rest) acc =
    if Qltb (now - last_seen info) stale_timeout
    then sweep now rest (Dict.set peer info acc)
    else (log_message (stale_log peer (now - last_seen info)) ;;
          del_peer peer ;;
          sweep now rest acc).
Proof. reflexivity. Qed.

(** The loop as an equation: its value and the registry it leaves. *)
Lemma sweep_eq (now : Q) (rest : list (string * peer_info)) :
  forall (kept acc : Dict.t peer_info) (w : world),
    peers w = kept ++ rest ->
    Dict.wf (kept ++ rest) = true ->
    (forall k v, Dict.get k rest = Some v -> Dict.get k acc = None) ->
    sweep now rest acc w =
      (if all_stale_loggable now rest
       then Ok (acc ++ active_entries now rest)
       else Raise FormatError,
       with_peers w (kept ++ after_listing now rest)).
Proof.
  induction rest as [|[k info] rest IH]; intros kept acc w Hw Hwf Hfresh.
  - rewrite app_nil_r in Hw. unfold active_entries. simpl.
    rewrite !app_nil_r, <- Hw, with_peers_same. reflexivity.
  - destruct (wf_drop_middle _ _ _ _ Hwf) as (Hwf' & Hk1 & Hk2).
    rewrite after_listing_cons, all_stale_loggable_cons, active_entries_cons.
    simpl snd. rewrite sweep_cons.
    destruct (Qltb (now - last_seen info) stale_timeout) eqn:Hact.
    + assert (Hacc : Dict.get k acc = None).
      { apply (Hfresh k info). simpl. now rewrite String.eqb_refl. }
      rewrite (set_absent _ _ _ Hacc).
      rewrite (IH (kept ++ [(k, info)]) (acc ++ [(k, info)]) w).
      * simpl orb. simpl andb. now rewrite <- !app_assoc.
      * now rewrite <- app_assoc.
      * now rewrite <- app_assoc.
      * intros k' v' Hk'. apply get_app_none. split.
        -- apply (Hfresh k' v'). simpl.
           destruct (String.eqb k' k) eqn:E; auto.
           apply String.eqb_eq in E. subst. congruence.
        -- simpl. destruct (String.eqb k' k) eqn:E; auto.
           apply String.eqb_eq in E. subst. congruence.
    + cbn. unfold log_message.
      destruct (lone_percent (slice16 k)) eqn:Hlone.
      * rewrite (proj2 (stale_log_raises_iff k (now - last_seen info)) Hlone).
        cbn. rewrite <- Hw, with_peers_same. reflexivity.
      * destruct (percent_format (stale_log k (now - last_seen info))) eqn:Hlog.
        2:{ apply stale_log_raises_iff in Hlog. congruence. }
        cbn. rewrite Hw, (del_middle _ _ _ _ Hk1). cbn.
        rewrite (IH kept acc (with_peers w (kept ++ rest))); auto.
        intros k' v' Hk'. apply (Hfresh k' v'). simpl.
        destruct (String.eqb k' k) eqn:E; auto.
        apply String.eqb_eq in E. subst. congruence.
Qed.

Lemma after_listing_loggable (now : Q) (d : Dict.t peer_info) :
  all_stale_loggable now d = true -> after_listing now d = active_entries now d.
Proof.
  induction d as [|[k info] d IH]; [reflexivity|].
  rewrite after_listing_cons, all_stale_loggable_cons, active_entries_cons.
  simpl snd. intros H. apply andb_true_iff in H as [H1 H2].
  destruct (Qltb (now - last_seen info) stale_timeout); [now rewrite IH|].
  simpl in H1. apply negb_true_iff in H1. rewrite H1. auto.
Qed.

(** The listing handler as an equation. *)
Lemma do_GET_peers_eq (now : Q) (w : world) :
  Dict.wf (peers w) = true ->
  do_GET_peers now w =
    (Ok tt,
     if all_stale_loggable now (peers w)
     then with_reply (with_peers w (active_entries now (peers w)))
            (Listing200 (active_entries now (peers w))
                        (Dict.len (active_entries now (peers w))) now)
     else with_reply (with_peers w (after_listing now (peers w))) Error500).
Proof.
  intros Hwf. unfold do_GET_peers. cbn. unfold Dict.items.
  rewrite (sweep_eq now (peers w) [] [] w eq_refl Hwf (fun _ _ _ => eq_refl)).
  destruct (all_stale_loggable now (peers w)) eqn:E; cbn.
  - unfold log_message. rewrite returned_log_formats. cbn.
    now rewrite (after_listing_loggable now _ E).
  - reflexivity.
Qed.

Lemma after_listing_In (now : Q) (d : Dict.t peer_info) (e : string * peer_info) :
  In e (after_listing now d) -> In e d.
Proof.
  induction d as [|[k info] d IH]; [auto|].
  rewrite after_listing_cons.
  destruct (Qltb (now - last_seen info) stale_timeout).
  - intros [H|H]; [now left | right; auto].
  - destruct (lone_percent (slice16 k)); [auto|]. intros H. right. auto.
Qed.

Lemma after_listing_length (now : Q) (d : Dict.t peer_info) :
  (List.length (after_listing now d) <= List.length d)%nat.
Proof.
  induction d as [|[k info] d IH]; [auto|].
  rewrite after_listing_cons.
  destruct (Qltb (now - last_seen info) stale_timeout); simpl; [lia|].
  destruct (lone_percent (slice16 k)); simpl; lia.
Qed.

Lemma after_listing_get_none (now : Q) (d : Dict.t peer_info) (k : string) :
  Dict.get k d = None -> Dict.get k (after_listing now d) = None.
Proof.
  induction d as [|[k0 info] d IH]; [auto|].
  rewrite after_listing_cons. simpl.
  destruct (String.eqb k k0) eqn:E; [discriminate|]. intros H.
  destruct (Qltb (now - last_seen info) stale_timeout); simpl;
    [rewrite E; auto|].
  destruct (lone_percent (slice16 k0)); simpl; [rewrite E|]; auto.
Qed.

Lemma after_listing_wf (now : Q) (d : Dict.t peer_info) :
  Dict.wf d = true -> Dict.wf (after_listing now d) = true.
Proof.
  induction d as [|[k info] d IH]; [auto|].
  intros H. pose proof H as H0. apply wf_cons in H as [Hk Hwf].
  rewrite after_listing_cons.
  destruct (Qltb (now - last_seen info) stale_timeout).
  - apply wf_cons. split; auto. now apply after_listing_get_none.
  - destruct (lone_percent (slice16 k)); auto.
Qed.

Lemma after_listing_get (now : Q) (d : Dict.t peer_info) (k : string)
    (info : peer_info) :
  Dict.wf d = true ->
  Dict.get k (after_listing now d) = Some info -> Dict.get k d = Some info.
Proof.
  intros Hwf H. apply In_get; auto.
  apply (after_listing_In now). now apply get_In.
Qed.

Lemma after_listing_idem (now : Q) (d : Dict.t peer_info) :
  after_listing now (after_listing now d) = after_listing now d.
Proof.
  induction d as [|[k info] d IH]; [reflexivity|].
  rewrite after_listing_cons.
  destruct (Qltb (now - last_seen info) stale_timeout) eqn:E.
  - rewrite after_listing_cons, E. now rewrite IH.
  - destruct (lone_percent (slice16 k)) eqn:L; [|exact IH].
    now rewrite after_listing_cons, E, L.
Qed.

Lemma after_listing_loggable_same (now : Q) (d : Dict.t peer_info) :
  all_stale_loggable now (after_listing now d) = all_stale_loggable now d.
Proof.
  induction d as [|[k info] d IH]; [reflexivity|].
  rewrite after_listing_cons, all_stale_loggable_cons.
  destruct (Qltb (now - last_seen info) stale_timeout) eqn:E.
  - now rewrite all_stale_loggable_cons, E, IH.
  - destruct (lone_percent (slice16 k)) eqn:L.
    + now rewrite all_stale_loggable_cons, E, L.
    + simpl. exact IH.
Qed.

Lemma active_entries_idem (now : Q) (d : Dict.t peer_info) :
  active_entries now (active_entries now d) = active_entries now d.
Proof.
  induction d as [|[k info] d IH]; [reflexivity|].
  rewrite active_entries_cons. simpl snd.
  destruct (Qltb (now - last_seen info) stale_timeout) eqn:E; auto.
  rewrite active_entries_cons. simpl snd. now rewrite E, IH.
Qed.

(** X2. From a registry with unique keys, the listing does what the
    specification states exactly when no stale entry has a lone [%] in the
    first 16 characters of its id; otherwise the reply is the 500 error and
    the registry is swept only up to the first such entry. *)
Theorem listing_as_stated_iff :
  forall (now : Q) (w : world),
    Dict.wf (peers w) = true ->
    (listing_as_stated now w <-> stale_ids_loggable now (peers w)) /\
    (~ stale_ids_loggable now (peers w) ->
     do_GET_peers now w =
       (Ok tt, with_reply (with_peers w (after_listing now (peers w))) Error500)).
Proof.
  intros now w Hwf. pose proof (do_GET_peers_eq now w Hwf) as Heq.
  destruct (all_stale_loggable now (peers w)) eqn:E.
  - apply all_stale_loggable_iff in E. split.
    + split; [auto|]. intros _. apply listing_exact_when_logs_format; auto.
      now apply stale_ids_loggable_logs.
    + intros H. contradiction.
  - assert (Hno : ~ stale_ids_loggable now (peers w)).
    { intros H. apply all_stale_loggable_iff in H. congruence. }
    split; [|auto]. split; [|intros H; contradiction].
    intros [listed [Hw _]]. rewrite Heq in Hw. unfold wrote in Hw. cbn in Hw.
    apply app_inv_head in Hw. discriminate.
Qed.

(** After [abc] turned stale the listing is the specified one; with the
    stale [50%off] stored it is not. *)
Lemma listing_as_stated_iff_witness :
  listing_as_stated 401 world_abc /\ ~ listing_as_stated 301 world_percent.
Proof.
  split.
  - apply (proj1 (listing_as_stated_iff 401 world_abc eq_refl)).
    apply all_stale_loggable_iff. reflexivity.
  - intros H.
    apply (proj1 (listing_as_stated_iff 301 world_percent eq_refl)) in H.
    apply all_stale_loggable_iff in H. discriminate.
Defined.

(** X3. A listing repeated at the same clock reading changes nothing more:
    the registry the first call left is kept, and the second call writes
    the reply the first one wrote, the same listing or again the 500. *)
Theorem listing_idempotent :
  forall (now : Q) (w : world),
    Dict.wf (peers w) = true ->
    let w1 := snd (do_GET_peers now w) in
    let w2 := snd (do_GET_peers now w1) in
    peers w2 = peers w1 /\
    (forall r, wrote w w1 [r] -> wrote w1 w2 [r]).
Proof.
  intros now w Hwf. cbv zeta.
  rewrite (do_GET_peers_eq now w Hwf).
  destruct (all_stale_loggable now (peers w)) eqn:E; cbn [snd].
  - assert (Ha : all_stale_loggable now (active_entries now (peers w)) = true).
    { rewrite <- (after_listing_loggable now _ E), after_listing_loggable_same.
      exact E. }
    rewrite do_GET_peers_eq by (cbn; now apply wf_filter).
    cbn [peers with_reply with_peers].
    rewrite Ha, active_entries_idem. cbn [snd peers with_reply with_peers].
    split; [reflexivity|].
    intros r Hr. unfold wrote in *. cbn in *.
    apply app_inv_head in Hr. now rewrite Hr.
  - rewrite do_GET_peers_eq by (cbn; now apply after_listing_wf).
    cbn [peers with_reply with_peers].
    rewrite after_listing_loggable_same, E, after_listing_idem.
    cbn [snd peers with_reply with_peers].
    split; [reflexivity|].
    intros r Hr. unfold wrote in *. cbn in *.
    apply app_inv_head in Hr. now rewrite Hr.
Qed.

Lemma listing_idempotent_witness :
  peers (snd (do_GET_peers 401 (snd (do_GET_peers 401 world_abc)))) =
  peers (snd (do_GET_peers 401 world_abc)).
Proof.
  exact (proj1 (listing_idempotent 401 world_abc eq_refl)).
Defined.

(** X15. Eviction ends a record's history. A stale peer that registers
    again keeps its [registered_at] as long as no listing came in between;
    once a listing has evicted it, the new registration starts a new record
    with [registered_at] = the time of that registration. *)
Theorem eviction_resets_registered_at :
  forall (data : register_body) (now t : Q) (w : world) (peer addr : string)
         (old : peer_info),
    Dict.wf (peers w) = true ->
    Dict.get peer (peers w) = Some old ->
    ~ active_at now old ->
    stale_ids_loggable now (peers w) ->
    accepted data peer addr ->
    let listed := snd (do_GET_peers now w) in
    Dict.get peer (peers (snd (do_POST_register data t w))) =
      Some (stored_record data peer addr t (registered_at old)) /\
    Dict.get peer (peers listed) = None /\
    Dict.get peer (peers (snd (do_POST_register data t listed))) =
      Some (stored_record data peer addr t t).
Proof.
  intros data now t w peer addr old Hwf Hget Hst Hlog (Hp & Hpne & Hi & Hine).
  cbv zeta.
  assert (Hgone : Dict.get peer (peers (snd (do_GET_peers now w))) = None).
  { rewrite (listing_evicts_stale now w Hwf)
      by now apply stale_ids_loggable_logs.
    cbn [snd peers with_reply with_peers].
    destruct (Dict.get peer (active_entries now (peers w))) as [i|] eqn:E; auto.
    apply active_entries_get in E; auto. destruct E as [E1 E2].
    rewrite Hget in E1. injection E1 as ->. contradiction. }
  split; [|split; [exact Hgone|]].
  - rewrite (accepted_record data t w peer addr Hp Hpne Hi Hine).
    now rewrite Hget.
  - rewrite (accepted_record data t _ peer addr Hp Hpne Hi Hine).
    now rewrite Hgone.
Qed.

Lemma eviction_resets_registered_at_witness :
  Dict.get "abc" (peers (snd (do_POST_register body_abc_moved 500 world_abc))) =
    Some (stored_record body_abc_moved "abc" "10.0.0.2" 500 100) /\
  Dict.get "abc"
    (peers (snd (do_POST_register body_abc_moved 500
                   (snd (do_GET_peers 401 world_abc))))) =
    Some (stored_record body_abc_moved "abc" "10.0.0.2" 500 500).
Proof.
  assert (Hst : ~ active_at 401 info_abc).
  { apply stale_at_300. vm_compute. discriminate. }
  assert (Hlog : stale_ids_loggable 401 (peers world_abc)).
  { apply all_stale_loggable_iff. reflexivity. }
  assert (Hacc : accepted body_abc_moved "abc" "10.0.0.2").
  { repeat split; discriminate. }
  pose proof (eviction_resets_registered_at body_abc_moved 401 500 world_abc
                "abc" "10.0.0.2" info_abc eq_refl eq_refl Hst Hlog Hacc) as H.
  cbv zeta in H. destruct H as (H1 & _ & H3).
  split; [exact H1 | exact H3].
Defined.

(** ** The handlers behind the dispatch *)

Lemma registry_answer_accepts (data : register_body) (now : Q) (w : world)
    (peer addr : string) :
  accepted data peer addr ->
  registry_answer (do_POST_register data now) w =
    (Dict.set peer
       (stored_record data peer addr now
          match Dict.get peer (peers w) with
          | Some old => registered_at old
          | None => now
          end) (peers w),
     Registry (Registered201 peer) ::
     if lone_percent (slice16 peer) || lone_percent addr
     then [Registry Error500] else []).
Proof.
  intros (Hp & Hpne & Hi & Hine). unfold registry_answer.
  rewrite (do_POST_register_accepts data now (connection w) peer addr
             Hp Hpne Hi Hine).
  rewrite register_run. cbn [snd].
  rewrite <- registered_log_lone with
    (is_new := negb (Dict.mem peer (peers (connection w))))
    (port_ := get_default (body_port data) 8443%Z)
    (public_ := get_default (body_is_public data) false).
  destruct (percent_format _) eqn:E.
  - destruct (lone_percent _) eqn:L.
    + apply percent_format_none_iff in L. congruence.
    + reflexivity.
  - apply percent_format_none_iff in E. rewrite E. reflexivity.
Qed.

Lemma registry_answer_rejects (data : register_body) (now : Q) (w : world) :
  falsy (body_peer_id data)
    || falsy (or_else (body_ip data) (body_ip_address data)) = true ->
  registry_answer (do_POST_register data now) w =
    (peers w, [Registry (Error400 "Missing peer_id or ip")]).
Proof.
  intros H. unfold registry_answer.
  now rewrite (do_POST_register_rejects data now (connection w) H).
Qed.

(** A body either passes the guard of line 44 or fails it. *)
Lemma accepted_or_rejected (data : register_body) :
  (exists peer addr, accepted data peer addr) \/
  falsy (body_peer_id data)
    || falsy (or_else (body_ip data) (body_ip_address data)) = true.
Proof.
  unfold accepted.
  destruct (body_peer_id data) as [peer|]; [|now right].
  destruct (or_else (body_ip data) (body_ip_address data)) as [addr|];
    [|right; apply orb_true_r].
  simpl. destruct (falsy_str peer) eqn:Fp; [now right|].
  destruct (falsy_str addr) eqn:Fa; [now right|].
  left. exists peer, addr. apply falsy_str_false in Fp, Fa. auto.
Qed.

(** What a POST can do to the registry: nothing, or the upsert of an
    accepted registration, answered with 201 first. *)
Lemma do_POST_cases (path : string) (body : request_body) (now : Q) (w : world) :
  fst (do_POST path body now w) = peers w \/
  exists data peer addr rest,
    body = Object data /\
    (path = "/register" \/ path = "/api/peers/register") /\
    accepted data peer addr /\
    fst (do_POST path body now w) =
      Dict.set peer
        (stored_record data peer addr now
           match Dict.get peer (peers w) with
           | Some old => registered_at old
           | None => now
           end) (peers w) /\
    snd (do_POST path body now w) = Registry (Registered201 peer) :: rest.
Proof.
  unfold do_POST.
  destruct (String.eqb path "/register" || String.eqb path "/api/peers/register")
    eqn:Hreg.
  - destruct body as [| | | | |data]; try (left; reflexivity).
    destruct (accepted_or_rejected data) as [(peer & addr & Hacc)|Hrej].
    + right. exists data, peer, addr.
      rewrite (registry_answer_accepts data now w peer addr Hacc).
      eexists. split; [reflexivity|]. split.
      { apply orb_true_iff in Hreg as [H|H]; apply String.eqb_eq in H; auto. }
      split; [exact Hacc|]. split; reflexivity.
    + left. now rewrite (registry_answer_rejects data now w Hrej).
  - destruct (String.eqb path "/api/auth/verify"); [left; reflexivity|].
    destruct (String.eqb path "/authenticate"
              || String.eqb path "/api/auth/authenticate"); left; reflexivity.
Qed.

Section DispatchFacts.
Variable py_int : string -> option Z.

(** What a GET can do to the registry: nothing, or what a listing does. *)
Lemma do_GET_cases (path : string) (q : lookup_query) (c : string) (now : Q)
    (w : world) :
  fst (do_GET py_int path q c now w) = peers w \/
  ((path = "/peers" \/ path = "/api/peers") /\
   fst (do_GET py_int path q c now w) =
     peers (snd (do_GET_peers now (connection w)))).
Proof.
  unfold do_GET.
  destruct (String.prefix "/api/peers/lookup" path).
  { left. unfold registry_answer. cbn [fst].
    apply (do_GET_lookup_frame py_int q now (connection w)). }
  destruct (String.eqb path "/api/auth/challenge"); [left; reflexivity|].
  destruct (String.eqb path "/peers" || String.eqb path "/api/peers") eqn:Hp.
  { right. split; [|reflexivity].
    apply orb_true_iff in Hp as [H|H]; apply String.eqb_eq in H; auto. }
  destruct (String.eqb path "/health"); [left; reflexivity|].
  destruct (String.eqb path "/stats"); [|left; reflexivity].
  left. unfold registry_answer. cbn [fst].
  apply (do_GET_stats_frame now (connection w)).
Qed.

Lemma listing_leaves_after_listing (now : Q) (w : world) :
  Dict.wf (peers w) = true ->
  peers (snd (do_GET_peers now w)) = after_listing now (peers w).
Proof.
  intros Hwf. rewrite (do_GET_peers_eq now w Hwf).
  destruct (all_stale_loggable now (peers w)) eqn:E; cbn [snd]; [|reflexivity].
  cbn [peers with_reply with_peers]. symmetry.
  now apply after_listing_loggable.
Qed.

End DispatchFacts.

(** ** The staleness threshold in the three handlers *)

(** Up to the first stale entry whose log line raises, the loop leaves the
    active entries. *)
Lemma after_listing_app (now : Q) (visited d : Dict.t peer_info) :
  stale_ids_loggable now visited ->
  after_listing now (visited ++ d) =
    active_entries now visited ++ after_listing now d.
Proof.
  intros H. apply all_stale_loggable_iff in H.
  induction visited as [|[k info] visited IH]; [reflexivity|].
  rewrite all_stale_loggable_cons in H. apply andb_true_iff in H as [H1 H2].
  rewrite <- app_comm_cons, after_listing_cons, active_entries_cons. simpl snd.
  destruct (Qltb (now - last_seen info) stale_timeout).
  - now rewrite IH.
  - simpl in H1. apply negb_true_iff in H1. rewrite H1. auto.
Qed.

(** What the loop does with an entry it reaches. *)
Lemma after_listing_reached (now : Q) (visited todo : Dict.t peer_info)
    (k : string) (info : peer_info) :
  Dict.wf (visited ++ (k, info) :: todo) = true ->
  stale_ids_loggable now visited ->
  Dict.get k (after_listing now (visited ++ (k, info) :: todo)) =
    if Qltb (now - last_seen info) stale_timeout || lone_percent (slice16 k)
    then Some info else None.
Proof.
  intros Hwf Hlog. destruct (wf_drop_middle _ _ _ _ Hwf) as (_ & Hv & Ht).
  rewrite (after_listing_app now _ _ Hlog), get_app.
  unfold active_entries at 1. rewrite (get_filter_none _ _ _ Hv).
  rewrite after_listing_cons.
  destruct (Qltb (now - last_seen info) stale_timeout); simpl.
  - now rewrite String.eqb_refl.
  - destruct (lone_percent (slice16 k)); simpl.
    + now rewrite String.eqb_refl.
    + now apply after_listing_get_none.
Qed.

Section Threshold.
Variable py_int : string -> option Z.

(** C2. Lookup, listing and statistics all draw the line at
    [now - last_seen < 300], strictly. A lookup returns the stored record
    exactly when it is active. The listing never removes an active record;
    every entry its loop reaches (all entries before it being active, or
    stale with an id whose log line can be formatted) is kept exactly when it
    is active or its own log line raises, and removed exactly when it is
    stale and its log line can be formatted; and when no stale id has a lone
    [%] in its first 16 characters the listing replies with the listed
    records, their count and [now], the registry is the listed set, and a
    stored record is listed exactly when it is active and gone exactly when
    it is not. The statistics count as active exactly the active records. A
    record last seen at [now - 299] is active and one last seen at
    [now - 300] or before is not. *)
Theorem staleness_threshold :
  forall (now : Q) (w : world),
    Dict.wf (peers w) = true ->
    (forall q peer info,
        query_peer_id q = Some peer -> peer <> "" -> count_parses py_int q ->
        Dict.get peer (peers w) = Some info ->
        exists found rest,
          wrote w (snd (do_GET_lookup py_int q now w))
                (Lookup200 found (Z.of_nat (List.length found)) :: rest) /\
          (found = [view_of info] <-> active_at now info) /\
          (found = [] <-> ~ active_at now info)) /\
    (forall k info,
        Dict.get k (peers w) = Some info ->
        (active_at now info ->
         Dict.get k (peers (snd (do_GET_peers now w))) = Some info) /\
        (forall listed n ts,
            wrote w (snd (do_GET_peers now w)) [Listing200 listed n ts] ->
            (Dict.get k listed = Some info <-> active_at now info) /\
            (Dict.get k (peers (snd (do_GET_peers now w))) = Some info <->
             active_at now info))) /\
    (forall visited k info todo,
        peers w = visited ++ (k, info) :: todo ->
        stale_ids_loggable now visited ->
        (Dict.get k (peers (snd (do_GET_peers now w))) = Some info <->
         active_at now info \/ lone_percent (slice16 k) = true) /\
        (Dict.get k (peers (snd (do_GET_peers now w))) = None <->
         ~ active_at now info /\ lone_percent (slice16 k) = false)) /\
    (stale_ids_loggable now (peers w) ->
     exists listed,
       wrote w (snd (do_GET_peers now w))
             [Listing200 listed (Dict.len listed) now] /\
       peers (snd (do_GET_peers now w)) = listed /\
       (forall k info,
           Dict.get k listed = Some info -> Dict.get k (peers w) = Some info) /\
       (forall k info,
           Dict.get k (peers w) = Some info ->
           (Dict.get k listed = Some info <-> active_at now info) /\
           (Dict.get k listed = None <-> ~ active_at now info))) /\
    (exists total active public private uptime a,
        wrote w (snd (do_GET_stats now w))
              [Stats200 total active public private uptime] /\
        active = Z.of_nat a /\
        counts (active_at now) (Dict.values (peers w)) a) /\
    (forall info, (last_seen info == now - 299)%Q -> active_at now info) /\
    (forall info, (last_seen info <= now - 300)%Q -> ~ active_at now info).
Proof.
  intros now w Hwf. repeat apply conj.
  - intros q peer info Hp Hpne Hc Hget.
    exists (lookup peer now (peers w)).
    rewrite (do_GET_lookup_answers py_int q now w peer Hp Hpne Hc). cbn [snd].
    destruct (Qltb (now - last_seen info) stale_timeout) eqn:E.
    + pose proof (proj1 (active_test now info) E) as Hact.
      rewrite (lookup_active peer now _ info Hget Hact).
      exists (match percent_format (lookup_log peer 1) with
              | Some _ => [] | None => [Error500] end).
      split; [|split].
      * unfold wrote. simpl List.length.
        destruct (percent_format _); simpl; auto. now rewrite <- app_assoc.
      * tauto.
      * split; [discriminate | tauto].
    + pose proof (proj1 (stale_test now info) E) as Hst.
      rewrite (lookup_stale peer now _ info Hget Hst).
      exists (match percent_format (lookup_log peer 0) with
              | Some _ => [] | None => [Error500] end).
      split; [|split].
      * unfold wrote. simpl List.length.
        destruct (percent_format _); simpl; auto. now rewrite <- app_assoc.
      * split; [discriminate | tauto].
      * tauto.
  - intros k info Hget. split.
    + now apply listing_keeps_active.
    + intros listed n ts Hw.
      destruct (listing_reply_is_active now w listed n ts Hwf Hw)
        as (Hl & _ & _ & Hp).
      rewrite Hp, Hl, (active_entries_get now (peers w) k info Hwf). tauto.
  - intros visited k info todo Hsplit Hlog.
    rewrite (listing_leaves_after_listing now w Hwf), Hsplit.
    rewrite Hsplit in Hwf.
    rewrite (after_listing_reached now visited todo k info Hwf Hlog).
    destruct (Qltb (now - last_seen info) stale_timeout) eqn:E.
    + apply active_test in E. simpl. split.
      * split; auto.
      * split; [discriminate|]. intros [H _]. contradiction.
    + apply stale_test in E. simpl.
      destruct (lone_percent (slice16 k)).
      * split; [split; auto|]. split; [discriminate|]. intros [_ H]. discriminate.
      * split.
        -- split; [discriminate|]. intros [H|H]; [contradiction|discriminate].
        -- split; auto.
  - intros Hlog.
    destruct (listing_exact_when_logs_format now w Hwf
                (proj1 (stale_ids_loggable_logs now (peers w)) Hlog))
      as (listed & Hw & Hp & Hl).
    exists listed. split; [exact Hw|]. split; [exact Hp|]. split.
    + intros k info H. now apply Hl in H.
    + intros k info Hget. split.
      * rewrite Hl. tauto.
      * split.
        -- intros Hnone Hact.
           rewrite (proj2 (Hl k info) (conj Hget Hact)) in Hnone. discriminate.
        -- intros Hst. destruct (Dict.get k listed) as [v|] eqn:E; [|reflexivity].
           apply Hl in E as [E Hact]. rewrite Hget in E. injection E as ->.
           contradiction.
  - rewrite do_GET_stats_run. cbv zeta. do 5 eexists.
    exists (List.length
              (filter (fun info => Qltb (now - last_seen info) 300)
                      (Dict.values (peers w)))).
    split; [reflexivity|]. split; [reflexivity|].
    apply counts_filter. intros info. apply (active_test now info).
  - apply active_at_299.
  - apply stale_at_300.
Qed.

End Threshold.

(** [abc], last seen at 100: at 399 a lookup returns it and the listing
    keeps it; at 400 the listing is empty and the record is gone. *)
Lemma staleness_threshold_witness :
  (exists rest,
      wrote world_abc (snd (do_GET_lookup decimal_int query_abc 399 world_abc))
            (Lookup200 [view_of info_abc] 1 :: rest)) /\
  Dict.get "abc" (peers (snd (do_GET_peers 399 world_abc))) = Some info_abc /\
  wrote world_abc (snd (do_GET_peers 400 world_abc)) [Listing200 [] 0 400] /\
  peers (snd (do_GET_peers 400 world_abc)) = [] /\
  ~ active_at 400 info_abc.
Proof.
  assert (H299 : active_at 399 info_abc).
  { destruct (staleness_threshold decimal_int 399 world_abc eq_refl)
      as (_ & _ & _ & _ & _ & H & _).
    apply H. reflexivity. }
  assert (H300 : ~ active_at 400 info_abc).
  { destruct (staleness_threshold decimal_int 400 world_abc eq_refl)
      as (_ & _ & _ & _ & _ & _ & H).
    apply H. vm_compute. discriminate. }
  assert (loggable_400 : stale_ids_loggable 400 (peers world_abc)).
  { apply all_stale_loggable_iff. reflexivity. }
  assert (listed_nil : forall listed : Dict.t peer_info,
             (forall k info, Dict.get k listed = Some info ->
                             Dict.get k (peers world_abc) = Some info) ->
             (forall k info, Dict.get k (peers world_abc) = Some info ->
                 (Dict.get k listed = Some info <-> active_at 400 info) /\
                 (Dict.get k listed = None <-> ~ active_at 400 info)) ->
             listed = []).
  { intros [|[k v] t] Hsub Hl; [reflexivity|]. exfalso.
    assert (Hk : Dict.get k ((k, v) :: t) = Some v).
    { simpl. now rewrite String.eqb_refl. }
    pose proof (Hsub k v Hk) as Hin.
    pose proof (proj1 (proj1 (Hl k v Hin)) Hk) as Hact.
    simpl in Hin. destruct (String.eqb k "abc"); [|discriminate].
    injection Hin as <-. exact (H300 Hact). }
  split; [|split; [|split; [|split]]].
  - destruct (staleness_threshold decimal_int 399 world_abc eq_refl)
      as (Hlookup & _).
    destruct (Hlookup query_abc "abc" info_abc eq_refl ltac:(discriminate) I eq_refl)
      as (found & rest & Hw & Hact & _).
    exists rest. rewrite (proj2 Hact H299) in Hw. exact Hw.
  - destruct (staleness_threshold decimal_int 399 world_abc eq_refl)
      as (_ & Hlist & _).
    exact (proj1 (Hlist "abc" info_abc eq_refl) H299).
  - destruct (staleness_threshold decimal_int 400 world_abc eq_refl)
      as (_ & _ & _ & Hlisting & _).
    destruct (Hlisting loggable_400) as (listed & Hw & _ & Hsub & Hl).
    rewrite (listed_nil listed Hsub Hl) in Hw. exact Hw.
  - destruct (staleness_threshold decimal_int 400 world_abc eq_refl)
      as (_ & _ & _ & Hlisting & _).
    destruct (Hlisting loggable_400) as (listed & _ & Hp & Hsub & Hl).
    rewrite Hp. exact (listed_nil listed Hsub Hl).
  - exact H300.
Defined.

(** ** Round trips and edge cases of the registry handlers *)

Section RoundTrips.
Variable py_int : string -> option Z.

(** X1. Register, then look up. Whatever the registry held before, after an
    accepted registration at time [t] a lookup of that id at time [now]
    returns exactly one entry, carrying the id, the address and the port
    and flag of the body (8443 and false when absent), as long as
    [now - t < 300], and returns nothing from [now - t >= 300] on. *)
Theorem register_then_lookup :
  forall (data : register_body) (t now : Q) (w : world) (peer addr : string)
         (q : lookup_query),
    accepted data peer addr ->
    query_peer_id q = Some peer -> count_parses py_int q ->
    let w1 := snd (do_POST_register data t w) in
    let entry :=
      {| view_peer_id := peer; view_ip_address := addr;
         view_port := get_default (body_port data) 8443%Z;
         view_is_public := get_default (body_is_public data) false |} in
    ((now - t < 300)%Q ->
     exists rest,
       wrote w1 (snd (do_GET_lookup py_int q now w1)) (Lookup200 [entry] 1 :: rest)) /\
    ((300 <= now - t)%Q ->
     exists rest,
       wrote w1 (snd (do_GET_lookup py_int q now w1)) (Lookup200 [] 0 :: rest)).
Proof.
  intros data t now w peer addr q (Hp & Hpne & Hi & Hine) Hq Hc. cbv zeta.
  pose proof (accepted_record data t w peer addr Hp Hpne Hi Hine) as Hrec.
  set (w1 := snd (do_POST_register data t w)) in *.
  set (rec := stored_record data peer addr t _) in Hrec.
  rewrite (do_GET_lookup_answers py_int q now w1 peer Hq Hpne Hc). cbn [snd].
  split; intros Ht.
  - rewrite (lookup_active peer now (peers w1) rec Hrec Ht).
    destruct (percent_format _).
    + exists []. reflexivity.
    + exists [Error500]. unfold wrote. simpl. now rewrite <- app_assoc.
  - rewrite (lookup_stale peer now (peers w1) rec Hrec (Qle_not_lt _ _ Ht)).
    destruct (percent_format _).
    + exists []. reflexivity.
    + exists [Error500]. unfold wrote. simpl. now rewrite <- app_assoc.
Qed.

(** X12. A lookup without a [peer_id] (absent or empty) whose [count] is
    absent or an integer is answered with the 400 error alone, and nothing
    else happens. *)
Theorem lookup_without_peer_id :
  forall (q : lookup_query) (now : Q) (w : world),
    falsy (query_peer_id q) = true -> count_parses py_int q ->
    do_GET_lookup py_int q now w =
      (Ok tt, with_reply w (Error400 "Missing peer_id parameter")).
Proof.
  intros q now w Hp Hc. unfold count_parses in Hc. unfold do_GET_lookup. cbn.
  destruct (query_count q) as [s|]; [destruct (py_int s); [|congruence]|];
    cbn; (destruct (query_peer_id q) as [peer|]; [|reflexivity]);
    simpl in Hp; rewrite Hp; reflexivity.
Qed.

(** X4. Lazy eviction, where the listing can run: in a registry with
    unique keys in which no stale id has a lone [%] in its first 16
    characters, a stale record survives any number of lookups and
    statistics requests, is not returned by a lookup, and is removed by the
    next listing, after which no lookup finds it. *)
Theorem stale_peer_evicted_by_listing :
  forall (rs : list (request * Q)) (now : Q) (w : world) (peer : string)
         (info : peer_info),
    Dict.wf (peers w) = true ->
    Dict.get peer (peers w) = Some info ->
    ~ active_at now info ->
    stale_ids_loggable now (peers w) ->
    forallb reads_only (map fst rs) = true ->
    let w1 := serve py_int rs w in
    let w2 := snd (do_GET_peers now w1) in
    Dict.get peer (peers w1) = Some info /\
    lookup peer now (peers w1) = [] /\
    Dict.get peer (peers w2) = None /\
    (List.length (peers w2) < List.length (peers w))%nat /\
    (forall later, lookup peer later (peers w2) = []).
Proof.
  intros rs now w peer info Hwf Hget Hst Hlog Hrs. cbv zeta.
  destruct (lazy_eviction_when_logs_format py_int rs now w peer info
              Hwf Hget Hst Hrs) as (H1 & H2 & _ & H4).
  split; [exact H1|]. split; [exact H2|].
  apply H4. apply stale_ids_loggable_logs.
  now rewrite (proj1 (serve_reads_only py_int rs w Hrs)).
Qed.

End RoundTrips.

Lemma register_then_lookup_witness :
  exists rest,
    wrote (snd (do_POST_register body_abc 100 empty_world))
          (snd (do_GET_lookup decimal_int query_abc 200
                  (snd (do_POST_register body_abc 100 empty_world))))
          (Lookup200 [view_of info_abc] 1 :: rest).
Proof.
  assert (Hacc : accepted body_abc "abc" "10.0.0.1").
  { repeat split; discriminate. }
  pose proof (register_then_lookup decimal_int body_abc 100 200 empty_world
                "abc" "10.0.0.1" query_abc Hacc eq_refl I) as H.
  cbv zeta in H. destruct H as [H _]. apply H. reflexivity.
Defined.

Lemma lookup_without_peer_id_witness :
  do_GET_lookup decimal_int query_no_peer 200 world_abc =
    (Ok tt, with_reply world_abc (Error400 "Missing peer_id parameter")).
Proof.
  apply (lookup_without_peer_id decimal_int query_no_peer 200 world_abc).
  - reflexivity.
  - unfold count_parses. simpl. discriminate.
Defined.

Lemma stale_peer_evicted_by_listing_witness :
  Dict.get "abc"
    (peers (snd (do_GET_peers 401
                   (serve decimal_int
                      [(GET_lookup query_abc, 401); (GET_stats, 401)] world_abc))))
    = None.
Proof.
  assert (Hst : ~ active_at 401 info_abc).
  { apply stale_at_300. vm_compute. discriminate. }
  assert (Hlog : stale_ids_loggable 401 (peers world_abc)).
  { apply all_stale_loggable_iff. reflexivity. }
  pose proof (stale_peer_evicted_by_listing decimal_int
                [(GET_lookup query_abc, 401); (GET_stats, 401)] 401 world_abc
                "abc" info_abc eq_refl eq_refl Hst Hlog eq_refl) as H.
  cbv zeta in H. exact (proj1 (proj2 (proj2 H))).
Defined.

(** ** What the dispatch can do to the registry *)

Lemma In_set {V : Type} (k : string) (v : V) (d : Dict.t V) (e : string * V) :
  In e (Dict.set k v d) -> e = (k, v) \/ In e d.
Proof.
  induction d as [|[k0 v0] d IH]; simpl.
  - intros [H|[]]. now left.
  - destruct (String.eqb k k0) eqn:E.
    + apply String.eqb_eq in E. subst k0. intros [H|H]; [now left | right; now right].
    + intros [H|H]; [right; now left|].
      destruct (IH H); [now left | right; now right].
Qed.

Lemma set_length_ge {V : Type} (k : string) (v : V) (d : Dict.t V) :
  (List.length d <= List.length (Dict.set k v d))%nat.
Proof.
  destruct (Dict.get k d) as [old|] eqn:E.
  - now rewrite (set_present k v old d E).
  - rewrite (set_absent k v d E), length_app. simpl. lia.
Qed.

Lemma get_set_some {V : Type} (k k' : string) (v v' : V) (d : Dict.t V) :
  Dict.get k' d = Some v' -> exists v'', Dict.get k' (Dict.set k v d) = Some v''.
Proof.
  intros H. destruct (String.eqb k' k) eqn:E.
  - apply String.eqb_eq in E. subst. exists v. apply get_set_same.
  - apply String.eqb_neq in E. exists v'. now rewrite get_set_other.
Qed.

(** X13. An accepted registration, on either registration path, stores
    the record and is answered with 201; the 201 is followed by a 500
    exactly when the first 16 characters of the id or the address contain
    a lone [%] (an IPv6 zone id, say), and the record is stored all the
    same. *)
Theorem register_reply_and_percent :
  forall (path : string) (data : register_body) (now : Q) (w : world)
         (peer addr : string),
    path = "/register" \/ path = "/api/peers/register" ->
    accepted data peer addr ->
    do_POST path (Object data) now w =
      (Dict.set peer
         (stored_record data peer addr now
            match Dict.get peer (peers w) with
            | Some old => registered_at old
            | None => now
            end) (peers w),
       Registry (Registered201 peer) ::
       if lone_percent (slice16 peer) || lone_percent addr
       then [Registry Error500] else []).
Proof.
  intros path data now w peer addr Hpath Hacc. unfold do_POST.
  replace (String.eqb path "/register" || String.eqb path "/api/peers/register")
    with true by (destruct Hpath; subst; reflexivity).
  now apply registry_answer_accepts.
Qed.

(** X9. A POST never removes a record: every stored id is still stored
    afterwards, and the registry does not shrink. *)
Theorem post_never_removes :
  forall (path : string) (body : request_body) (now : Q) (w : world)
         (k : string) (v : peer_info),
    Dict.get k (peers w) = Some v ->
    (exists v', Dict.get k (fst (do_POST path body now w)) = Some v') /\
    (List.length (peers w) <= List.length (fst (do_POST path body now w)))%nat.
Proof.
  intros path body now w k v Hget.
  destruct (do_POST_cases path body now w)
    as [Hsame|(data & peer & addr & rest & _ & _ & _ & Hset & _)].
  - rewrite Hsame. split; [now exists v | lia].
  - rewrite Hset. split.
    + now apply get_set_some with (v' := v).
    + apply set_length_ge.
Qed.

Section DispatchTheorems.
Variable py_int : string -> option Z.

Lemma get_never_adds_aux (path : string) (q : lookup_query) (c : string)
    (now : Q) (w : world) :
  Dict.wf (peers w) = true ->
  forall k v, Dict.get k (fst (do_GET py_int path q c now w)) = Some v ->
              Dict.get k (peers w) = Some v.
Proof.
  intros Hwf k v.
  destruct (do_GET_cases py_int path q c now w) as [Hsame|[_ Hlist]].
  - now rewrite Hsame.
  - rewrite Hlist, (listing_leaves_after_listing now (connection w) Hwf).
    cbn [peers connection]. now apply after_listing_get.
Qed.

(** X14. A lookup with a peer id and a usable [count], on any path that
    starts with [/api/peers/lookup], leaves the registry as it is and is
    answered with 200 and the matching peers; the 200 is followed by a 500
    exactly when the first 16 characters of the id contain a lone [%]. *)
Theorem lookup_reply_and_percent :
  forall (path : string) (q : lookup_query) (c : string) (now : Q) (w : world)
         (peer : string),
    String.prefix "/api/peers/lookup" path = true ->
    query_peer_id q = Some peer -> peer <> "" -> count_parses py_int q ->
    do_GET py_int path q c now w =
      (peers w,
       Registry (Lookup200 (lookup peer now (peers w))
                   (Z.of_nat (List.length (lookup peer now (peers w))))) ::
       if lone_percent (slice16 peer) then [Registry Error500] else []).
Proof.
  intros path q c now w peer Hpath Hq Hpne Hc. unfold do_GET.
  rewrite Hpath. unfold registry_answer.
  rewrite (do_GET_lookup_answers py_int q now (connection w) peer Hq Hpne Hc).
  cbn [snd].
  rewrite <- (lookup_log_lone peer
                (Z.of_nat (List.length (lookup peer now (peers (connection w)))))).
  destruct (percent_format _) eqn:E.
  - destruct (lone_percent _) eqn:L.
    + apply percent_format_none_iff in L. congruence.
    + reflexivity.
  - apply percent_format_none_iff in E. rewrite E. reflexivity.
Qed.

(** X8. The registry is written by two things only: a request that
    changes it is a POST on a registration path with a JSON object that is
    answered with 201 first, or a GET of the full listing. *)
Theorem registry_written_only_by_register_and_listing :
  forall (r : http_request) (now : Q) (w : world),
    fst (answer py_int r now w) <> peers w ->
    (exists path data peer rest,
        r = POST path (Object data) /\
        (path = "/register" \/ path = "/api/peers/register") /\
        snd (answer py_int r now w) = Registry (Registered201 peer) :: rest) \/
    (exists path q c, r = GET path q c /\ (path = "/peers" \/ path = "/api/peers")).
Proof.
  intros [path body|path q c] now w Hne; simpl in *.
  - destruct (do_POST_cases path body now w)
      as [Hsame|(data & peer & addr & rest & Hb & Hp & _ & _ & Hsnd)];
      [contradiction|].
    left. exists path, data, peer, rest. subst body. auto.
  - destruct (do_GET_cases py_int path q c now w) as [Hsame|[Hp _]];
      [contradiction|].
    right. exists path, q, c. auto.
Qed.

(** X10. A GET never adds or changes a record: from a registry with
    unique keys, whatever is stored after a GET on any path was stored
    before with the same record, and the registry does not grow. *)
Theorem get_never_adds :
  forall (path : string) (q : lookup_query) (c : string) (now : Q) (w : world),
    Dict.wf (peers w) = true ->
    (forall k v, Dict.get k (fst (do_GET py_int path q c now w)) = Some v ->
                 Dict.get k (peers w) = Some v) /\
    (List.length (fst (do_GET py_int path q c now w)) <= List.length (peers w))%nat /\
    Dict.wf (fst (do_GET py_int path q c now w)) = true.
Proof.
  intros path q c now w Hwf.
  destruct (do_GET_cases py_int path q c now w) as [Hsame|[_ Hlist]].
  - rewrite Hsame. repeat split; auto.
  - rewrite Hlist, (listing_leaves_after_listing now (connection w) Hwf).
    cbn [peers connection]. repeat split.
    + intros k v. now apply after_listing_get.
    + apply after_listing_length.
    + now apply after_listing_wf.
Qed.

(** X7. [registered_at] is fixed for as long as a record is stored: no
    single request, on any path, changes the [registered_at] of a record it
    leaves stored, and when the clock has not gone back its [last_seen]
    does not decrease. *)
Theorem registered_at_fixed_while_stored :
  forall (r : http_request) (now : Q) (w : world) (k : string)
         (v v' : peer_info),
    Dict.wf (peers w) = true ->
    Dict.get k (peers w) = Some v ->
    Dict.get k (fst (answer py_int r now w)) = Some v' ->
    registered_at v' = registered_at v /\
    ((last_seen v <= now)%Q -> (last_seen v <= last_seen v')%Q).
Proof.
  intros [path body|path q c] now w k v v' Hwf Hget Hget'; simpl in Hget'.
  - destruct (do_POST_cases path body now w)
      as [Hsame|(data & peer & addr & rest & _ & _ & _ & Hset & _)].
    + rewrite Hsame, Hget in Hget'. injection Hget' as <-.
      split; [reflexivity | intros _; apply Qle_refl].
    + rewrite Hset in Hget'. destruct (String.eqb k peer) eqn:E.
      * apply String.eqb_eq in E. subst k.
        rewrite get_set_same, Hget in Hget'. injection Hget' as <-.
        split; [reflexivity | auto].
      * apply String.eqb_neq in E. rewrite get_set_other, Hget in Hget' by auto.
        injection Hget' as <-. split; [reflexivity | intros _; apply Qle_refl].
  - pose proof (get_never_adds_aux path q c now w Hwf k v' Hget') as Hold.
    rewrite Hget in Hold. injection Hold as <-.
    split; [reflexivity | intros _; apply Qle_refl].
Qed.

End DispatchTheorems.

(** ** Invariants of the server loop *)

Lemma record_ok_later (latest now : Q) (e : string * peer_info) :
  record_ok latest e -> (latest <= now)%Q -> record_ok now e.
Proof.
  intros (H1 & H2 & H3 & H4 & H5) Hle. repeat split; auto.
  now apply Qle_trans with latest.
Qed.

Lemma with_peers_twice (w : world) (d d' : Dict.t peer_info) :
  with_peers (with_peers w d) d' = with_peers w d'.
Proof. reflexivity. Qed.

Section LoopFacts.
Variable py_int : string -> option Z.

Lemma answer_registry_ok (r : http_request) (now latest : Q) (w : world) :
  registry_ok latest (peers w) -> (latest <= now)%Q ->
  registry_ok now (fst (answer py_int r now w)).
Proof.
  intros [Hwf Hrec] Hle. destruct r as [path body|path q c]; simpl answer.
  - destruct (do_POST_cases path body now w)
      as [Hsame|(data & peer & addr & rest & _ & _ & Hacc & Hset & _)].
    + rewrite Hsame. split; auto.
      intros e He. apply record_ok_later with latest; auto.
    + rewrite Hset. split; [now apply wf_set|].
      intros e He. apply In_set in He as [->|He].
      * destruct Hacc as (_ & Hpne & _ & Hane).
        unfold record_ok, stored_record. simpl. repeat split; auto.
        -- destruct (Dict.get peer (peers w)) as [old|] eqn:E; [|apply Qle_refl].
           destruct (Hrec (peer, old) (get_In _ _ _ E)) as (_ & _ & _ & H4 & H5).
           simpl in H4, H5.
           apply Qle_trans with (last_seen old); auto.
           now apply Qle_trans with latest.
        -- apply Qle_refl.
      * apply record_ok_later with latest; auto.
  - destruct (do_GET_cases py_int path q c now w) as [Hsame|[_ Hlist]].
    + rewrite Hsame. split; auto.
      intros e He. apply record_ok_later with latest; auto.
    + rewrite Hlist, (listing_leaves_after_listing now (connection w) Hwf).
      cbn [peers connection]. split; [now apply after_listing_wf|].
      intros e He. apply record_ok_later with latest; auto.
      apply Hrec. now apply (after_listing_In now).
Qed.

Lemma run_registry_ok (rs : list (http_request * Q)) :
  forall (w : world) (latest : Q),
    registry_ok latest (peers w) -> clock_ok latest rs ->
    registry_ok (last_clock latest rs) (peers (fst (run py_int rs w))).
Proof.
  induction rs as [|[r now] rs IH]; intros w latest Hok Hclock; simpl.
  - exact Hok.
  - destruct Hclock as [Hle Hclock]. apply IH; auto.
    cbn [peers with_peers]. now apply answer_registry_ok with latest.
Qed.

(** X6. Every registry the server can reach has unique ids, and every
    stored record carries its own id, a non-empty id and address, and
    [registered_at <= last_seen <=] the latest clock reading, provided the
    clock never went back between requests. *)
Theorem reachable_records_ok :
  forall (start : Q) (rs : list (http_request * Q)),
    clock_ok start rs ->
    let w := fst (run_server py_int start rs) in
    Dict.wf (peers w) = true /\
    forall k info, In (k, info) (peers w) ->
      record_ok (last_clock start rs) (k, info).
Proof.
  intros start rs Hclock. cbv zeta. unfold run_server.
  destruct (run_registry_ok rs
              {| peers := []; server_start_time := start; wfile := [] |} start)
    as [Hwf Hrec]; auto.
  - split; [reflexivity | intros e []].
Qed.

Lemma run_cons (r : http_request) (now : Q) (rs : list (http_request * Q))
    (w : world) :
  run py_int ((r, now) :: rs) w =
    (fst (run py_int rs (with_peers w (fst (answer py_int r now w)))),
     snd (answer py_int r now w)
       :: snd (run py_int rs (with_peers w (fst (answer py_int r now w))))).
Proof. reflexivity. Qed.

Lemma run_app (rs rs' : list (http_request * Q)) :
  forall w,
    run py_int (rs ++ rs') w =
      (fst (run py_int rs' (fst (run py_int rs w))),
       snd (run py_int rs w) ++ snd (run py_int rs' (fst (run py_int rs w)))).
Proof.
  induction rs as [|[r now] rs IH]; intros w; simpl.
  - now destruct (run py_int rs' w).
  - now rewrite IH.
Qed.

Lemma entry_of_accepted (data : register_body) (t : Q) (k : string)
    (rec : peer_info) :
  entry_of (data, t) = Some (k, rec) ->
  exists addr, accepted data k addr /\ rec = stored_record data k addr t t.
Proof.
  unfold entry_of, accepted. simpl fst. simpl snd.
  destruct (body_peer_id data) as [peer|]; [|discriminate].
  destruct (or_else (body_ip data) (body_ip_address data)) as [addr|];
    [|discriminate].
  destruct (falsy_str peer || falsy_str addr) eqn:F; [discriminate|].
  intros [= <- <-]. apply orb_false_iff in F as [Fp Fa].
  apply falsy_str_false in Fp, Fa. exists addr. auto.
Qed.

(** Registrations of new, distinct ids append their entries in arrival
    order. *)
Lemma run_register_posts (regs : list (register_body * Q)) :
  forall (entries : Dict.t peer_info) (w : world),
    map entry_of regs = map Some entries ->
    Dict.wf (peers w ++ entries) = true ->
    fst (run py_int (register_posts regs) w) = with_peers w (peers w ++ entries).
Proof.
  induction regs as [|[data t] regs IH]; intros [|[k rec] entries] w Hmap Hwf;
    try discriminate.
  - simpl. now rewrite app_nil_r, with_peers_same.
  - simpl in Hmap. injection Hmap as Hentry Hmap.
    destruct (entry_of_accepted data t k rec Hentry) as (addr & Hacc & ->).
    destruct (wf_drop_middle _ _ _ _ Hwf) as (_ & Hfresh & _).
    unfold register_posts. cbn [map fst snd]. fold (register_posts regs).
    rewrite run_cons. cbn [fst answer].
    change (do_POST "/register" (Object data) t w)
      with (registry_answer (do_POST_register data t) w).
    rewrite (registry_answer_accepts data t w k addr Hacc). cbn [fst].
    rewrite Hfresh, (set_absent _ _ _ Hfresh).
    rewrite (IH entries); auto.
    + cbn [peers with_peers]. now rewrite with_peers_twice, <- app_assoc.
    + cbn [peers with_peers]. now rewrite <- app_assoc.
Qed.

Lemma all_active_loggable (now : Q) (d : Dict.t peer_info) :
  (forall k info, In (k, info) d -> active_at now info) ->
  all_stale_loggable now d = true.
Proof.
  intros H. apply all_stale_loggable_iff. intros k info Hin Hst.
  exfalso. apply Hst. now apply (H k info).
Qed.

(** X5. N registrations of distinct peer ids, served one after the other
    from the start of the server, are all in a listing taken while they
    are active: the listing returns their records in arrival order with
    count N, and the registry holds exactly them. *)
Theorem distinct_registrations_all_listed :
  forall (start now : Q) (regs : list (register_body * Q))
         (entries : Dict.t peer_info) (q : lookup_query) (c : string),
    map entry_of regs = map Some entries ->
    Dict.wf entries = true ->
    (forall k info, In (k, info) entries -> active_at now info) ->
    let out :=
      run_server py_int start (register_posts regs ++ [(GET "/peers" q c, now)]) in
    peers (fst out) = entries /\
    last (snd out) [] =
      [Registry (Listing200 entries (Z.of_nat (List.length regs)) now)].
Proof.
  intros start now regs entries q c Hmap Hwf Hact. cbv zeta.
  unfold run_server. rewrite run_app. cbn [fst snd].
  rewrite (run_register_posts regs entries) by (simpl; auto).
  cbn [peers app].
  set (w := with_peers _ entries).
  assert (Hlen : List.length entries = List.length regs).
  { rewrite <- (length_map entry_of regs), Hmap. symmetry. apply length_map. }
  assert (Hget : do_GET py_int "/peers" q c now w =
                 (entries, [Registry (Listing200 entries
                                        (Z.of_nat (List.length regs)) now)])).
  { change (do_GET py_int "/peers" q c now w)
      with (registry_answer (do_GET_peers now) w).
    unfold registry_answer.
    rewrite (do_GET_peers_eq now (connection w)) by exact Hwf.
    cbn [peers connection]. subst w. cbn [peers with_peers].
    rewrite (all_active_loggable now entries Hact).
    rewrite (active_entries_all now entries Hact). cbn.
    unfold Dict.len. now rewrite Hlen. }
  rewrite run_cons. cbn [answer run fst snd]. rewrite Hget.
  cbn [fst snd peers with_peers].
  split; [reflexivity|]. apply last_last.
Qed.

(** X16. The health endpoint and the statistics agree: asked at the same
    moment they report the same number of stored records, the stale ones
    included, and the same whole seconds of uptime; neither changes the
    registry. *)
Theorem health_agrees_with_stats :
  forall (q : lookup_query) (c : string) (now : Q) (w : world),
    exists total active public private uptime,
      do_GET py_int "/stats" q c now w =
        (peers w, [Registry (Stats200 total active public private uptime)]) /\
      do_GET py_int "/health" q c now w = (peers w, [Health200 uptime total]) /\
      total = Z.of_nat (List.length (peers w)) /\
      uptime = int_of_float (now - server_start_time w).
Proof.
  intros q c now w. do 5 eexists. split; [|split; [|split]].
  - change (do_GET py_int "/stats" q c now w)
      with (registry_answer (do_GET_stats now) w).
    unfold registry_answer. rewrite do_GET_stats_run. reflexivity.
  - reflexivity.
  - reflexivity.
  - reflexivity.
Qed.

End LoopFacts.

(** X11. The authentication endpoints accept every peer: whatever id the
    body names, registered or not, the reply is 200 with the token
    [session-<id>-<whole seconds>], and an empty body or a body without
    [peer_id] is taken as the id [unknown]; the registry is not touched.
    The 200 is followed by a 500 exactly when the first 16 characters of
    the id contain a lone [%]. Only [/api/auth/verify] sends the
    [authenticated] flag. *)
Theorem authentication_accepts_any_peer :
  forall (path : string) (data : register_body) (now : Q) (w : world),
    path = "/api/auth/verify" \/ path = "/authenticate"
      \/ path = "/api/auth/authenticate" ->
    let peer := get_default (body_peer_id data) "unknown" in
    let flag := if String.eqb path "/api/auth/verify" then Some true else None in
    do_POST path (Object data) now w =
      (peers w,
       Auth200 (session_token peer now) flag ::
       if lone_percent (slice16 peer) then [Registry Error500] else []) /\
    do_POST path NoContent now w =
      (peers w, [Auth200 (session_token "unknown" now) flag]).
Proof.
  intros path data now w Hpath. cbv zeta.
  assert (Hlog : forall flag peer,
    auth_accept flag peer now =
      Auth200 (session_token peer now) flag ::
      if lone_percent (slice16 peer) then [Registry Error500] else []).
  { intros flag peer. unfold auth_accept.
    rewrite <- (authenticated_log_lone peer).
    destruct (percent_format _) eqn:E.
    - destruct (lone_percent _) eqn:L; [|reflexivity].
      apply percent_format_none_iff in L. congruence.
    - apply percent_format_none_iff in E. now rewrite E. }
  destruct Hpath as [ -> | [ -> | -> ] ]; split;
    unfold do_POST; simpl String.eqb; simpl orb; cbv iota;
    unfold do_POST_auth; rewrite Hlog; reflexivity.
Qed.

(** ** The dispatch theorems at concrete inputs *)

(** [50%off] registers: stored, 201, then the 500 of the log call. *)
Lemma register_reply_and_percent_witness :
  do_POST "/register" (Object body_percent) 0 empty_world =
    (peers world_percent,
     [Registry (Registered201 "50%off"); Registry Error500]).
Proof.
  assert (Hacc : accepted body_percent "50%off" "10.0.0.9").
  { repeat split; discriminate. }
  exact (register_reply_and_percent "/register" body_percent 0 empty_world
           "50%off" "10.0.0.9" (or_introl eq_refl) Hacc).
Defined.

(** [abc] is still stored after [b] registered. *)
Lemma post_never_removes_witness :
  exists v',
    Dict.get "abc" (fst (do_POST "/api/peers/register" (Object body_b) 150 world_abc))
      = Some v'.
Proof.
  exact (proj1 (post_never_removes "/api/peers/register" (Object body_b) 150
                  world_abc "abc" info_abc eq_refl)).
Defined.

Lemma lookup_reply_and_percent_witness :
  do_GET decimal_int "/api/peers/lookup?peer_id=abc" query_abc "" 200 world_abc =
    (peers world_abc, [Registry (Lookup200 [view_of info_abc] 1)]).
Proof.
  exact (lookup_reply_and_percent decimal_int "/api/peers/lookup?peer_id=abc"
           query_abc "" 200 world_abc "abc" eq_refl eq_refl
           ltac:(discriminate) I).
Defined.

(** The registration of [abc] changes the empty registry, and it is a POST
    on a registration path answered with 201. *)
Lemma registry_written_only_by_register_and_listing_witness :
  (exists path data peer rest,
      POST "/register" (Object body_abc) = POST path (Object data) /\
      (path = "/register" \/ path = "/api/peers/register") /\
      snd (answer decimal_int (POST "/register" (Object body_abc)) 100 empty_world)
        = Registry (Registered201 peer) :: rest) \/
  (exists path q c,
      POST "/register" (Object body_abc) = GET path q c /\
      (path = "/peers" \/ path = "/api/peers")).
Proof.
  apply (registry_written_only_by_register_and_listing decimal_int
           (POST "/register" (Object body_abc)) 100 empty_world).
  intros H. vm_compute in H. discriminate.
Defined.

Lemma get_never_adds_witness :
  (List.length (fst (do_GET decimal_int "/peers" query_none "" 401 world_abc))
   <= List.length (peers world_abc))%nat.
Proof.
  exact (proj1 (proj2 (get_never_adds decimal_int "/peers" query_none "" 401
                         world_abc eq_refl))).
Defined.

(** [abc] re-registers at 200 and keeps [registered_at = 100]. *)
Lemma registered_at_fixed_while_stored_witness :
  registered_at (stored_record body_abc_moved "abc" "10.0.0.2" 200 100)
    = registered_at info_abc.
Proof.
  exact (proj1 (registered_at_fixed_while_stored decimal_int
                  (POST "/register" (Object body_abc_moved)) 200 world_abc "abc"
                  info_abc (stored_record body_abc_moved "abc" "10.0.0.2" 200 100)
                  eq_refl eq_refl eq_refl)).
Defined.

Lemma reachable_records_ok_witness :
  Dict.wf (peers (fst (run_server decimal_int 0
                         (register_posts regs_abc_b
                            ++ [(GET "/peers" query_none "", 200)])))) = true.
Proof.
  assert (Hclock : clock_ok 0 (register_posts regs_abc_b
                                 ++ [(GET "/peers" query_none "", 200)])).
  { simpl. unfold Qle. simpl. lia. }
  exact (proj1 (reachable_records_ok decimal_int 0 _ Hclock)).
Defined.

(** [abc] and [b] register at 100 and 150; the listing at 200 returns
    both. *)
Lemma distinct_registrations_all_listed_witness :
  last (snd (run_server decimal_int 0
               (register_posts regs_abc_b ++ [(GET "/peers" query_none "", 200)])))
       [] = [Registry (Listing200 entries_abc_b 2 200)].
Proof.
  refine (proj2 (distinct_registrations_all_listed decimal_int 0 200 regs_abc_b
                   entries_abc_b query_none "" eq_refl eq_refl _)).
  intros k info [H|[H|[]]]; injection H as <- <-; unfold active_at, Qlt;
    simpl; lia.
Defined.

(** An id that never registered authenticates. *)
Lemma authentication_accepts_any_peer_witness :
  do_POST "/api/auth/verify" (Object body_b) 1234 empty_world =
    (peers empty_world, [Auth200 "session-b-1234" (Some true)]).
Proof.
  exact (proj1 (authentication_accepts_any_peer "/api/auth/verify" body_b 1234
                  empty_world (or_introl eq_refl))).
Defined.
